(** * Discovery components: search input, rule-group dropdown, refinements

    A shallow embedding of the event handlers of three view components:

    - [SearchInput] (SearchInput.tsx): the text box with autocompletion
      and spelling suggestion;
    - [RuleGroupDropdown] (RuleGroupDropdown.tsx): the All/Any selector of
      the structured-query builder;
    - [SearchRefinements]: the faceted checkboxes, of which only the test
      suite is available.

    JavaScript strings are modelled as [string] (a sequence of code units),
    JavaScript objects used as records with a spread ([{...o, k: v}]) as
    [gmap string jsval], and the calls a handler makes to its collaborators
    (search API, DOM) as a trace of [call]s threaded through a small state
    monad. *)

From Stdlib Require Import ZArith Ascii.
From stdpp Require Import base option list strings gmap fin_maps.

Open Scope string_scope.
Open Scope list_scope.

(** ** JavaScript values and string primitives *)

Module JS.

(** The values that occur in the objects handled below. Arrays only ever
    hold strings here. *)
Inductive jsval :=
  | JUndefined
  | JNull
  | JBool (b : bool)
  | JNum (n : Z)
  | JStr (s : string)
  | JArr (a : list string).

(** [!!v]: ToBoolean. An array is an object, hence truthy even when empty. *)
Definition truthy (v : jsval) : bool :=
  match v with
  | JUndefined | JNull => false
  | JBool b => b
  | JNum n => negb (n =? 0)%Z
  | JStr s => negb (String.eqb s "")
  | JArr _ => true
  end.

(** [a || b] returns one of its operands. *)
Definition or_ (a b : jsval) : jsval := if truthy a then a else b.

(** [a[i]] for a number [i]: [undefined] outside [0 .. length-1]. *)
Definition index (a : list string) (i : Z) : option string :=
  if (i <? 0)%Z then None else a !! Z.to_nat i.

(** [s || ''] for [s : string | undefined]. *)
Definition or_empty (s : option string) : string := default "" s.

(** [String.prototype.split] with a non-empty string separator: scan from
    the left; at a position where [sep] matches, close the current piece
    and skip the separator. [skip] counts the code units of a matched
    separator that are still to be passed over, [cur] is the piece read so
    far. *)
Fixpoint split_scan (sep : string) (skip : nat) (cur s : string) : list string :=
  match s with
  | "" => [cur]
  | String c s' =>
      match skip with
      | S k => split_scan sep k cur s'
      | O =>
          if String.prefix sep s
          then cur :: split_scan sep (pred (String.length sep)) "" s'
          else split_scan sep 0 (cur +:+ String c "") s'
      end
  end.

(** With the empty separator the string is cut into its code units (and
    the empty string into no piece at all). *)
Fixpoint units (s : string) : list string :=
  match s with
  | "" => []
  | String c s' => String c "" :: units s'
  end.

Definition split (sep s : string) : list string :=
  match sep with
  | "" => units s
  | _ => split_scan sep 0 "" s
  end.

(** [Array.prototype.join]. *)
Fixpoint join (sep : string) (l : list string) : string :=
  match l with
  | [] => ""
  | x :: l' =>
      match l' with
      | [] => x
      | _ => x +:+ sep +:+ join sep l'
      end
  end.

(** [s.substring(k)]: [s] without its first [k] code units. *)
Fixpoint sdrop (k : nat) (s : string) : string :=
  match k, s with
  | S k', String _ s' => sdrop k' s'
  | _, _ => s
  end.

(** Whether the code unit [c] occurs in [s]. *)
Fixpoint occurs (c : Ascii.ascii) (s : string) : bool :=
  match s with
  | "" => false
  | String a s' => if Ascii.ascii_dec c a then true else occurs c s'
  end.

(** [Array.prototype.pop]: the last element ([undefined] on an empty
    array) and the array that remains. *)
Definition pop (l : list string) : option string * list string :=
  (last l, removelast l).

(** [Array.prototype.push] of one element. *)
Definition push (l : list string) (x : string) : list string := l ++ [x].

End JS.

Import JS.

(** ** The search-service types the components exchange *)

Module DiscoveryV1.

(** [QueryParams] has many optional fields and is only ever copied with a
    spread and a few overrides, so it is kept as an object: a finite map
    from property names to values. *)
Abbreviation QueryParams := (gmap string jsval).

(** [QueryResponse], of which the input reads [suggested_query?]. *)
Record QueryResponse := { suggested_query : option string }.

(** [Completions], with [completions?: string[]]. *)
Record Completions := { completions : option (list string) }.

End DiscoveryV1.

(** ** SearchInput.tsx *)

Module SearchInput.

Import DiscoveryV1.

(** The props the handlers below read. A prop left out is [undefined] and
    takes its default in the destructuring. *)
Record SearchInputProps := { splitSearchQuerySelector : option string }.

(** [splitSearchQuerySelector = ' '] *)
Definition selector (props : SearchInputProps) : string :=
  default " " (splitSearchQuerySelector props).

(** What a handler does to its collaborators: the functions of [SearchApi]
    and the DOM node of the input field. *)
Inductive call :=
  | PerformSearch (params : QueryParams)
  | FetchAutocompletions (nlq : string)
  | PreventDefault
  | FocusInput
  | BlurInput.

(** What a handler can see and change: the [SearchContext] values, the
    component's own [useState] cells, whether
    [document.getElementById(`${inputId}_input_field`)] finds the field,
    and the calls made so far. *)
Record State := {
  searchParameters : QueryParams;
  searchResponse : option QueryResponse;
  autocompletionResults : option Completions;
  value : string;
  skipFetchAutoCompletions : bool;
  inputField : bool;
  calls : list call
}.

Definition M (A : Type) : Type := State → A * State.

#[global] Instance M_ret : MRet M := λ A x st, (x, st).
#[global] Instance M_bind : MBind M := λ A B f m st, let '(x, st') := m st in f x st'.

Definition exec {A} (m : M A) (st : State) : State := (m st).2.

(** The closure variables of the current render. *)
Definition render : M State := λ st, (st, st).

Definition setValue (v : string) : M unit := λ st,
  ((), {| searchParameters := searchParameters st;
          searchResponse := searchResponse st;
          autocompletionResults := autocompletionResults st;
          value := v;
          skipFetchAutoCompletions := skipFetchAutoCompletions st;
          inputField := inputField st;
          calls := calls st |}).

Definition setSkipFetchAutoCompletions (b : bool) : M unit := λ st,
  ((), {| searchParameters := searchParameters st;
          searchResponse := searchResponse st;
          autocompletionResults := autocompletionResults st;
          value := value st;
          skipFetchAutoCompletions := b;
          inputField := inputField st;
          calls := calls st |}).

(** [setSearchParameters(updater)]: the state setter of the shared search
    parameters, called with a function of the current parameters. *)
Definition setSearchParameters (updater : QueryParams → QueryParams) : M unit := λ st,
  ((), {| searchParameters := updater (searchParameters st);
          searchResponse := searchResponse st;
          autocompletionResults := autocompletionResults st;
          value := value st;
          skipFetchAutoCompletions := skipFetchAutoCompletions st;
          inputField := inputField st;
          calls := calls st |}).

Definition emit (c : call) : M unit := λ st,
  ((), {| searchParameters := searchParameters st;
          searchResponse := searchResponse st;
          autocompletionResults := autocompletionResults st;
          value := value st;
          skipFetchAutoCompletions := skipFetchAutoCompletions st;
          inputField := inputField st;
          calls := calls st ++ [c] |}).

Definition performSearch (params : QueryParams) : M unit := emit (PerformSearch params).
Definition fetchAutocompletions (nlq : string) : M unit := emit (FetchAutocompletions nlq).

(** [(autocompletionResults && autocompletionResults.completions) || []] *)
Definition completions (st : State) : jsval :=
  or_ (match autocompletionResults st with
       | None => JNull
       | Some r =>
           match DiscoveryV1.completions r with
           | None => JUndefined
           | Some a => JArr a
           end
       end)
      (JArr []).

(** [completions[i]] *)
Definition completionAt (cs : jsval) (i : Z) : option string :=
  match cs with
  | JArr a => index a i
  | _ => None
  end.

(** [searchResponse && searchResponse.suggested_query] *)
Definition suggestedQuery (st : State) : option string :=
  searchResponse st ≫= suggested_query.

(** [!!suggestedQuery] *)
Definition hasSuggestedQuery (st : State) : bool :=
  match suggestedQuery st with
  | Some q => truthy (JStr q)
  | None => false
  end.

(** [handleOnChange]: [evt.currentTarget] may be null. *)
Definition handleOnChange (target : option string) : M unit :=
  setValue (match target with Some v => v | None => "" end).

Definition focusInput : M unit :=
  st ← render;
  if inputField st then emit FocusInput else mret ().

Definition blurInput : M unit :=
  st ← render;
  if inputField st then emit BlurInput else mret ().

Definition selectAutocompletion (props : SearchInputProps) (i : Z) : M unit :=
  st ← render;
  let sep := selector props in
  let valueArray := split sep (value st) in
  let '(prefix, valueArray) := pop valueArray in
  let completionValue :=
    if truthy (completions st) then completionAt (completions st) i else prefix in
  let valueArray := push valueArray (or_empty completionValue) in
  setValue (join sep valueArray +:+ sep) ;;
  focusInput.

(** [{...searchParameters, natural_language_query: nlq, offset: 0, filter: ''}] *)
Definition prepareFreshSearchParameters (searchParameters : QueryParams) (nlq : string)
    : QueryParams :=
  <["filter" := JStr ""]>
    (<["offset" := JNum 0]>
       (<["natural_language_query" := JStr nlq]> searchParameters)).

Definition searchAndBlur (value : string) : M unit :=
  st ← render;
  performSearch (prepareFreshSearchParameters (searchParameters st) value) ;;
  blurInput.

(** The updater the debounce effect hands to [setSearchParameters]. *)
Definition debounceUpdater (debouncedSearchTerm : string) (currentSearchParameters : QueryParams)
    : QueryParams :=
  <["natural_language_query" := JStr debouncedSearchTerm]> currentSearchParameters.

(** The body of the effect whose dependency is [debouncedSearchTerm =
    useDebounce(value, 500)]: React runs it after a render in which the
    debounced term differs from the one of the previous run. The timer
    itself lives in [useDebounce]; here the term arrives as an argument. *)
Definition debounceEffect (debouncedSearchTerm : string) : M unit :=
  st ← render;
  setSearchParameters (debounceUpdater debouncedSearchTerm) ;;
  if negb (skipFetchAutoCompletions st)
  then fetchAutocompletions debouncedSearchTerm
  else setSkipFetchAutoCompletions false.

Definition handleOnKeyUp (key : string) : M unit :=
  st ← render;
  if String.eqb key "Enter" then searchAndBlur (value st) else mret ().

Definition setupHandleAutocompletionKeyUp (props : SearchInputProps) (i : Z) (key : string)
    : M unit :=
  if String.eqb key "Enter" then selectAutocompletion props i else mret ().

Definition setupHandleAutocompletionOnClick (props : SearchInputProps) (i : Z) : M unit :=
  selectAutocompletion props i.

Definition selectSuggestion : M unit :=
  st ← render;
  emit PreventDefault ;;
  match suggestedQuery st with
  | Some q =>
      if truthy (JStr q)
      then setSkipFetchAutoCompletions true ;; setValue q ;; searchAndBlur q
      else mret ()
  | None => mret ()
  end.

(** What can happen to a mounted input, one event at a time. The
    completions are rendered from [completions.map], so their handlers are
    set up for the indices of the list; the type of [i] allows any
    number. *)
Inductive event :=
  | Change (target : option string)
  | KeyUp (key : string)
  | AutocompletionClick (i : Z)
  | AutocompletionKeyUp (i : Z) (key : string)
  | SuggestionClick
  | DebouncedTerm (term : string).

Definition handle (props : SearchInputProps) (e : event) : M unit :=
  match e with
  | Change target => handleOnChange target
  | KeyUp key => handleOnKeyUp key
  | AutocompletionClick i => setupHandleAutocompletionOnClick props i
  | AutocompletionKeyUp i key => setupHandleAutocompletionKeyUp props i key
  | SuggestionClick => selectSuggestion
  | DebouncedTerm term => debounceEffect term
  end.

Fixpoint run (props : SearchInputProps) (es : list event) : M unit :=
  match es with
  | [] => mret ()
  | e :: es' => handle props e ;; run props es'
  end.

(** The autocompletion requests in a trace, in order. *)
Definition fetches (cs : list call) : list string :=
  omap (λ c, match c with FetchAutocompletions t => Some t | _ => None end) cs.

(** The searches in a trace, in order. *)
Definition searches (cs : list call) : list QueryParams :=
  omap (λ c, match c with PerformSearch p => Some p | _ => None end) cs.

(** The selection of a completion as the specification words it, to be
    compared with [selectAutocompletion]: the text with its last token
    replaced by the completion. *)
Definition replaceLastToken (sep value completion : string) : string :=
  join sep (removelast (split sep value) ++ [completion]).

(** Events that are neither a run of the debounce effect nor a click on
    the spelling suggestion. *)
Definition isDebouncedTerm (e : event) : bool :=
  match e with DebouncedTerm _ => true | _ => false end.

Definition isSuggestionClick (e : event) : bool :=
  match e with SuggestionClick => true | _ => false end.

(** A mounted input in which the user typed "foo b", with completions and
    a spelling suggestion at hand, used as a concrete instance below. *)
Definition defaultProps : SearchInputProps := {| splitSearchQuerySelector := None |}.

Definition typing : State :=
  {| searchParameters :=
       <["natural_language_query" := JStr "foo"]> (<["offset" := JNum 20]> ∅);
     searchResponse := Some {| suggested_query := Some "food" |};
     autocompletionResults := Some {| DiscoveryV1.completions := Some ["bar"; "baz"] |};
     value := "foo b";
     skipFetchAutoCompletions := false;
     inputField := true;
     calls := [] |}.

End SearchInput.

(** ** RuleGroupDropdown.tsx *)

Module RuleGroupDropdown.

(** The two texts of [Messages] the dropdown items use. *)
Record Messages := {
  ruleGroupDropdownAllOptionText : string;
  ruleGroupDropdownAnyOptionText : string
}.

Record Item := { label : string; value : string }.

(** What the toolkit's dropdown passes to [onChange]. *)
Record RuleGroupDropdownSelectedItem := { selectedItem : Item }.

Definition ruleGroupDropdownItems (messages : Messages) : list Item :=
  [ {| label := ruleGroupDropdownAllOptionText messages; value := "," |};
    {| label := ruleGroupDropdownAnyOptionText messages; value := "|" |} ].

(** [handleOnChange]: the argument of [setStructuredQuerySelection], which
    becomes the new selection state. *)
Definition handleOnChange (structuredQuerySelection : gmap string jsval)
    (ruleGroupDropdownSelection : RuleGroupDropdownSelectedItem) : gmap string jsval :=
  <["operator" := JStr (value (selectedItem ruleGroupDropdownSelection))]>
    structuredQuerySelection.

End RuleGroupDropdown.

(** ** SearchRefinements

    The component itself is not among the sources; its test suite is. The
    definitions of this module are written from the specification and
    agree with what the tests expect. *)

Module SearchRefinements.

Import DiscoveryV1.

(** Modelled from the spec: one refinement checkbox, the value it stands
    for and whether it is checked. *)
Record Checkbox := { key : string; checked : bool }.

(** Modelled from the spec: the checkboxes of one configured field, in the
    order they are shown. *)
Record Refinement := { field : string; checkboxes : list Checkbox }.

(** Modelled from the spec: the checked values of a field. *)
Definition checkedKeys (r : Refinement) : list string :=
  key <$> filter (λ c, checked c = true) (checkboxes r).

(** Modelled from the spec: the fields that have a checked value. *)
Definition selected (rs : list Refinement) : list Refinement :=
  filter (λ r, checkedKeys r ≠ []) rs.

(** Modelled from the spec: the [field:value] token of a field, its
    checked values joined by ['|'] (any of them). *)
Definition fieldToken (r : Refinement) : string :=
  field r +:+ ":" +:+ join "|" (checkedKeys r).

(** Modelled from the spec: the filter-string construction of the
    SearchRefinements component, whose source is missing: the tokens of
    the fields joined by [','] (all of them), in the order of the
    configured fields. *)
Definition buildFilter (rs : list Refinement) : string :=
  join "," (fieldToken <$> selected rs).

(** Modelled from the spec: one token taken apart at its first [':'] and
    its values at ['|']; a piece without [':'] is no token. *)
Definition parseToken (token : string) : option (string * list string) :=
  match split ":" token with
  | f :: v :: rest => Some (f, split "|" (join ":" (v :: rest)))
  | _ => None
  end.

(** Modelled from the spec: the filter-string deconstruction of the
    SearchRefinements component, whose source is missing. *)
Definition parseFilter (filter : string) : list (string * list string) :=
  omap parseToken (split "," filter).

(** Modelled from the spec: whether the filter selects value [k] of field
    [f]. *)
Definition inFilter (parsed : list (string * list string)) (f k : string) : bool :=
  existsb (λ t, bool_decide (t.1 = f) && bool_decide (k ∈ t.2)) parsed.

(** Modelled from the spec: the checkboxes shown for the configured
    fields, given the values the aggregation results list for each field
    and the filter of the current search parameters. *)
Definition refinementsOf (configuration : list string)
    (aggregations : string → list string) (filter : string) : list Refinement :=
  (λ f, {| field := f;
           checkboxes :=
             (λ k, {| key := k; checked := inFilter (parseFilter filter) f k |})
               <$> aggregations f |}) <$> configuration.

(** Modelled from the spec: the checkbox for value [k] of field [f] set to
    [b]; every other checkbox is left as it is. *)
Definition setChecked (f k : string) (b : bool) (rs : list Refinement) : list Refinement :=
  (λ r, if decide (field r = f)
        then {| field := field r;
                checkboxes :=
                  (λ c, if decide (key c = k) then {| key := key c; checked := b |} else c)
                    <$> checkboxes r |}
        else r) <$> rs.

(** Modelled from the spec: the change handler of the SearchRefinements
    component, whose source is missing. A click on the checkbox of value
    [k] of field [f] leaves it checked ([b = true]) or unchecked; the
    result is the new checkbox states and the parameters of the searches
    performed (one, from the first result again, with the filter of what
    is checked now). *)
Definition handleOnChange (searchParameters : QueryParams) (rs : list Refinement)
    (f k : string) (b : bool) : list Refinement * list QueryParams :=
  let rs' := setChecked f k b rs in
  (rs', [ <["filter" := JStr (buildFilter rs')]> (<["offset" := JNum 0]> searchParameters) ]).

(** Fields and values in which the delimiters of the filter syntax do not
    occur: no [','] and no [':'] in a field, no [','] and no ['|'] in a
    value. *)
Definition plainField (f : string) : bool :=
  negb (occurs ","%char f) && negb (occurs ":"%char f).

Definition plainKey (k : string) : bool :=
  negb (occurs ","%char k) && negb (occurs "|"%char k).

Definition plain (rs : list Refinement) : bool :=
  forallb (λ r, plainField (field r) && forallb (λ c, plainKey (key c)) (checkboxes r)) rs.

(** Whether value [k] of field [f] is the only one that may be checked:
    every checked checkbox is that one. *)
Definition onlyChecked (f k : string) (rs : list Refinement) : bool :=
  forallb (λ r, forallb (λ c, negb (checked c)
                              || (bool_decide (field r = f) && bool_decide (key c = k)))
                  (checkboxes r)) rs.

(** The fields and values of a filter with value [k] of field [f] taken
    out: the token of [f] loses the value, and goes altogether when no
    value is left in it; the tokens of the other fields stay as they
    are, in their order. *)
Definition withoutValue (f k : string) (parsed : list (string * list string))
    : list (string * list string) :=
  omap (λ t, match (if decide (t.1 = f) then filter (λ v, v ≠ k) t.2 else t.2) with
             | [] => None
             | vs => Some (t.1, vs)
             end) parsed.

(** The fixture of the tests: fields [author] and [subject] with the
    values the tests look up by label. *)
Definition configuration : list string := ["author"; "subject"].

Definition aggregations (f : string) : list string :=
  if String.eqb f "author" then ["ABMN Staff"; "News Staff"; "editor"]
  else if String.eqb f "subject" then ["Animals"; "People"; "Places"; "Things"]
  else [].

Definition setup (filter : string) : QueryParams * list Refinement :=
  (<["filter" := JStr filter]> (<["project_id" := JStr ""]> ∅),
   refinementsOf configuration aggregations filter).

(** [fireEvent.click] on the checkbox labelled [k] of field [f], in the
    rendering of [setup]. *)
Definition click (s : QueryParams * list Refinement) (f k : string) (b : bool)
    : list Refinement * list QueryParams :=
  handleOnChange s.1 s.2 f k b.

End SearchRefinements.

(** ** SearchInput.tsx: what is rendered, and the other effects *)

Module SearchInputRender.

Import DiscoveryV1 SearchInput.

(** [useState(searchParameters.natural_language_query || '')]; the query
    is a string or is not there. *)
Definition initialValue (searchParameters : QueryParams) : string :=
  match searchParameters !! "natural_language_query" with
  | Some (JStr s) => s
  | _ => ""
  end.

(** The input as it is mounted: the value taken from the search
    parameters, [useState(false)] for the flag, nothing called yet. *)
Definition mount (searchParameters : QueryParams) (searchResponse : option QueryResponse)
    (autocompletionResults : option Completions) (inputField : bool) : State :=
  {| SearchInput.searchParameters := searchParameters;
     SearchInput.searchResponse := searchResponse;
     SearchInput.autocompletionResults := autocompletionResults;
     value := initialValue searchParameters;
     skipFetchAutoCompletions := false;
     SearchInput.inputField := inputField;
     calls := [] |}.

(** [value.split(splitSearchQuerySelector).pop()] *)
Definition lastWordOfValue (props : SearchInputProps) (st : State) : option string :=
  (pop (split (selector props) (value st))).1.

(** [lastWordOfValue !== '' && showAutocomplete && focused], with
    [showAutocomplete = true] when the prop is left out; [focused] is the
    component's focus state. *)
Definition shouldShowCompletions (props : SearchInputProps) (showAutocomplete : option bool)
    (focused : bool) (st : State) : bool :=
  negb (bool_decide (lastWordOfValue props st = Some ""))
  && default true showAutocomplete && focused.

(** One entry of the completions dropdown: the index its click and key-up
    handlers are set up with, the text shown in bold and the suffix shown
    after it. *)
Record Completion := { position : nat; strong : string; suffix : string }.

(** [completions.map((completion, i) => ...)] with
    [suffix = completion.slice(lastWordOfValue.length)]. The callback
    reads [length] of the last word, which throws when the last word is
    [undefined]; on an empty array the callback is not called. [None]
    stands for the exception. *)
Definition autocompletionsList (props : SearchInputProps) (st : State)
    : option (list Completion) :=
  match completions st with
  | JArr [] => Some []
  | JArr a =>
      match lastWordOfValue props st with
      | Some w =>
          Some (imap (λ i completion,
                        {| position := i;
                           strong := value st;
                           suffix := sdrop (String.length w) completion |}) a)
      | None => None
      end
  | _ => None
  end.

(** The updater of the effect on [spellingSuggestions]:
    [{...currentSearchParameters, spelling_suggestions: !!spellingSuggestions}]. *)
Definition spellingUpdater (spellingSuggestions : option bool)
    (currentSearchParameters : QueryParams) : QueryParams :=
  <["spelling_suggestions" := JBool (default false spellingSuggestions)]>
    currentSearchParameters.

(** The terms the debounce effect ran with in a sequence of events. *)
Definition debouncedTerms (es : list event) : list string :=
  omap (λ e, match e with DebouncedTerm t => Some t | _ => None end) es.

(** The submissions in a sequence of events: Enter in the input, and
    clicks on the spelling suggestion. *)
Definition isEnter (e : event) : bool :=
  match e with KeyUp key => String.eqb key "Enter" | _ => false end.

Definition enters (es : list event) : nat :=
  length (filter (λ e, isEnter e = true) es).

Definition suggestionClicks (es : list event) : nat :=
  length (filter (λ e, isSuggestionClick e = true) es).

End SearchInputRender.

(** * Properties *)

(** ** Facts about [split] and [join] *)

Module StringFacts.

Lemma sapp_nil_l (s : string) : "" +:+ s = s.
Proof. reflexivity. Qed.

Lemma sapp_cons (c : Ascii.ascii) (s t : string) : String c s +:+ t = String c (s +:+ t).
Proof. reflexivity. Qed.

Lemma sapp_nil_r (s : string) : s +:+ "" = s.
Proof. induction s as [|c s IH]; [done|]. by rewrite sapp_cons, IH. Qed.

Lemma sapp_assoc (s t u : string) : (s +:+ t) +:+ u = s +:+ t +:+ u.
Proof. induction s as [|c s IH]; [done|]. by rewrite !sapp_cons, IH. Qed.

Lemma sdrop_app (p r : string) : sdrop (String.length p) (p +:+ r) = r.
Proof. induction p as [|c p IH]; [by destruct r|]. by rewrite sapp_cons. Qed.

Lemma prefix_app (p s : string) : String.prefix p s = true → ∃ r, s = p +:+ r.
Proof.
  revert s. induction p as [|a p IH]; intros s Hp.
  - by exists s.
  - destruct s as [|b s]; [done|]. simpl in Hp.
    destruct (Ascii.ascii_dec a b) as [->|]; [|done].
    destruct (IH _ Hp) as [r ->]. by exists r.
Qed.

Lemma split_scan_nonempty (sep : string) (k : nat) (cur s : string) :
  split_scan sep k cur s ≠ [].
Proof.
  revert k cur. induction s as [|c s IH]; intros k cur; [done|]. simpl.
  destruct k; [|apply IH].
  destruct sep as [|a sep]; [done|].
  destruct (Ascii.ascii_dec a c); [|apply IH]. by destruct (String.prefix sep s).
Qed.

Lemma join_cons (sep x : string) (l : list string) :
  l ≠ [] → join sep (x :: l) = x +:+ sep +:+ join sep l.
Proof. by destruct l. Qed.

Lemma join_snoc (sep x : string) (l : list string) :
  l ≠ [] → join sep (l ++ [x]) = join sep l +:+ sep +:+ x.
Proof.
  induction l as [|y l IH]; [done|]. intros _.
  destruct l as [|z l]; [done|].
  change ((y :: z :: l) ++ [x])%list with (y :: ((z :: l) ++ [x]))%list.
  rewrite !join_cons, IH, !sapp_assoc by done. done.
Qed.

(** Joining the pieces of a scan gives back what was scanned, the skipped
    code units apart. *)
Lemma join_split_scan (c0 : Ascii.ascii) (sep' : string) (s : string) :
  ∀ k cur, join (String c0 sep') (split_scan (String c0 sep') k cur s) = cur +:+ sdrop k s.
Proof.
  induction s as [|c s IH]; intros k cur.
  - simpl. destruct k; by rewrite sapp_nil_r.
  - destruct k as [|k]; [|apply IH].
    cbn [split_scan sdrop].
    destruct (String.prefix (String c0 sep') (String c s)) eqn:Hp.
    + rewrite join_cons by apply split_scan_nonempty.
      rewrite IH, sapp_nil_l. cbn [String.length pred].
      destruct (prefix_app _ _ Hp) as [r Hr]. rewrite sapp_cons in Hr.
      injection Hr as -> ->. by rewrite sdrop_app, sapp_cons.
    + by rewrite IH, sapp_assoc.
Qed.

Lemma join_units (s : string) : join "" (units s) = s.
Proof.
  induction s as [|c s IH]; [done|]. cbn [units].
  destruct (units s) eqn:Hu.
  - destruct s; [done | discriminate].
  - rewrite join_cons, IH by done. done.
Qed.

(** [s.split(sep).join(sep)] is [s], whatever the separator. *)
Lemma join_split (sep s : string) : join sep (split sep s) = s.
Proof.
  destruct sep as [|c0 sep']; [apply join_units|].
  unfold split. by rewrite join_split_scan.
Qed.

Example split_space : split " " "foo b" = ["foo"; "b"].
Proof. reflexivity. Qed.

Example split_trailing : split " " "foo " = ["foo"; ""].
Proof. reflexivity. Qed.

Example split_empty_text : split " " "" = [""].
Proof. reflexivity. Qed.

Example split_long_separator : split "ab" "xabyabab" = ["x"; "y"; ""; ""].
Proof. reflexivity. Qed.

Example split_overlap : split "aa" "aaa" = [""; "a"].
Proof. reflexivity. Qed.

Example split_empty_separator : split "" "abc" = ["a"; "b"; "c"].
Proof. reflexivity. Qed.

Example split_empty_both : split "" "" = [].
Proof. reflexivity. Qed.

Lemma split_nil (sep s : string) : split sep s = [] → sep = "" ∧ s = "".
Proof.
  destruct sep as [|c0 sep']; simpl.
  - by destruct s.
  - intros H. by apply split_scan_nonempty in H.
Qed.

(** Splitting at a single code unit. *)
Lemma split_scan_unit_cons (c a : Ascii.ascii) (cur s : string) :
  split_scan (String c "") 0 cur (String a s)
  = if Ascii.ascii_dec c a
    then cur :: split_scan (String c "") 0 "" s
    else split_scan (String c "") 0 (cur +:+ String a "") s.
Proof.
  cbn [split_scan String.prefix String.length pred].
  destruct (Ascii.ascii_dec c a); [|done]. by destruct s.
Qed.

Lemma split_scan_free (c : Ascii.ascii) (x : string) :
  occurs c x = false → ∀ cur, split_scan (String c "") 0 cur x = [cur +:+ x].
Proof.
  induction x as [|a x IH]; intros Hx cur.
  - by rewrite sapp_nil_r.
  - cbn [occurs] in Hx. rewrite split_scan_unit_cons.
    destruct (Ascii.ascii_dec c a); [done|].
    by rewrite IH, sapp_assoc.
Qed.

Lemma split_scan_free_app (c : Ascii.ascii) (x rest : string) :
  occurs c x = false →
  ∀ cur, split_scan (String c "") 0 cur (x +:+ String c rest)
         = (cur +:+ x) :: split_scan (String c "") 0 "" rest.
Proof.
  induction x as [|a x IH]; intros Hx cur.
  - rewrite sapp_nil_l, sapp_nil_r, split_scan_unit_cons.
    by destruct (Ascii.ascii_dec c c).
  - cbn [occurs] in Hx. rewrite sapp_cons, split_scan_unit_cons.
    destruct (Ascii.ascii_dec c a); [done|].
    by rewrite IH, sapp_assoc.
Qed.

(** [l.join(c).split(c)] is [l] when [c] occurs in no element of [l] and
    [l] is not empty. *)
Lemma split_join (c : Ascii.ascii) (l : list string) :
  l ≠ [] → Forall (λ x, occurs c x = false) l →
  split (String c "") (join (String c "") l) = l.
Proof.
  unfold split. induction l as [|x l IH]; [done|]. intros _ Hl.
  apply Forall_cons in Hl as [Hx Hl].
  destruct l as [|y l].
  - cbn [join]. by rewrite split_scan_free.
  - rewrite join_cons by done. rewrite sapp_cons, sapp_nil_l.
    rewrite split_scan_free_app by done. by rewrite IH.
Qed.

Lemma occurs_app (c : Ascii.ascii) (x y : string) :
  occurs c (x +:+ y) = occurs c x || occurs c y.
Proof.
  induction x as [|a x IH]; [done|]. rewrite sapp_cons. cbn [occurs].
  by destruct (Ascii.ascii_dec c a).
Qed.

Lemma occurs_join (c d : Ascii.ascii) (l : list string) :
  c ≠ d → Forall (λ x, occurs c x = false) l → occurs c (join (String d "") l) = false.
Proof.
  intros Hcd. induction l as [|x l IH]; [done|]. intros [Hx Hl]%Forall_cons.
  destruct l as [|y l]; [done|].
  rewrite join_cons, !occurs_app, Hx, IH by done. cbn.
  by destruct (Ascii.ascii_dec c d).
Qed.

(** A list is empty or has a last element; [pop] finds it. *)
Lemma pop_snoc (l : list string) (x : string) : pop (l ++ [x]) = (Some x, l).
Proof. unfold pop. by rewrite last_snoc, removelast_last. Qed.

Lemma pop_cases (l : list string) :
  (l = [] ∧ pop l = (None, [])) ∨ (∃ front x, l = (front ++ [x])%list ∧ pop l = (Some x, front)).
Proof.
  destruct l as [|y l] using rev_ind; [by left|].
  right. exists l, y. by rewrite pop_snoc.
Qed.

End StringFacts.

(** ** The search input *)

Module SearchInputFacts.

Import DiscoveryV1 SearchInput StringFacts.

(** Unfolds a handler run down to the record of the state it ends in. *)
Ltac run_handler :=
  cbv [exec handle run handleOnChange handleOnKeyUp selectSuggestion searchAndBlur
       setupHandleAutocompletionKeyUp setupHandleAutocompletionOnClick
       selectAutocompletion debounceEffect focusInput blurInput performSearch
       fetchAutocompletions emit setValue setSkipFetchAutoCompletions
       setSearchParameters render mbind mret M_bind M_ret]; cbn [fst snd].

(** The completions are an array whatever the context holds. *)
Lemma completions_array (st : State) : ∃ a, completions st = JArr a.
Proof.
  unfold completions. destruct (autocompletionResults st) as [[[a|]]|]; cbn; eauto.
Qed.

Lemma completions_truthy (st : State) : truthy (completions st) = true.
Proof. by destruct (completions_array st) as [a ->]. Qed.

(** What [selectAutocompletion] leaves in the input, and what it calls. *)
Lemma selectAutocompletion_state (props : SearchInputProps) (i : Z) (st : State) :
  exec (selectAutocompletion props i) st
  = {| searchParameters := searchParameters st;
       searchResponse := searchResponse st;
       autocompletionResults := autocompletionResults st;
       value := join (selector props)
                  (removelast (split (selector props) (value st))
                     ++ [or_empty (completionAt (completions st) i)])
                +:+ selector props;
       skipFetchAutoCompletions := skipFetchAutoCompletions st;
       inputField := inputField st;
       calls := calls st ++ (if inputField st then [FocusInput] else []) |}.
Proof.
  run_handler. rewrite completions_truthy. unfold pop, push.
  destruct (inputField st) eqn:Hf; cbn; rewrite ?Hf, ?app_nil_r; done.
Qed.

Lemma selectAutocompletion_value (props : SearchInputProps) (i : Z) (st : State) :
  value (exec (selectAutocompletion props i) st)
  = join (selector props)
      (removelast (split (selector props) (value st))
         ++ [or_empty (completionAt (completions st) i)])
    +:+ selector props.
Proof. by rewrite selectAutocompletion_state. Qed.

(** In terms of the text: what stands before the last token is kept, the
    last token gives way to the chosen value, and the selector follows. *)
Lemma selectAutocompletion_text (props : SearchInputProps) (i : Z) (st : State) :
  let sep := selector props in
  let chosen := or_empty (completionAt (completions st) i) in
  let value' := value (exec (selectAutocompletion props i) st) in
  (∃ before token,
     last (split sep (value st)) = Some token
     ∧ value st = before +:+ token
     ∧ value' = before +:+ chosen +:+ sep)
  ∨ (sep = "" ∧ value st = "" ∧ value' = chosen).
Proof.
  intros sep chosen value'. subst value'. rewrite selectAutocompletion_value.
  fold sep chosen.
  destruct (pop_cases (split sep (value st))) as [[Hnil _]|(front & token & Hsplit & _)].
  - right. rewrite Hnil. apply split_nil in Hnil as [Hs Hv].
    split_and!; [done..|]. rewrite Hs. cbn. apply sapp_nil_r.
  - left. pose proof (join_split sep (value st)) as Hjoin.
    rewrite Hsplit in *. rewrite removelast_last, last_snoc.
    destruct front as [|x front].
    + exists "", token. by rewrite <- Hjoin.
    + exists (join sep (x :: front) +:+ sep), token.
      rewrite join_snoc in Hjoin by done. rewrite join_snoc by done.
      by rewrite <- Hjoin, !sapp_assoc.
Qed.

(** C2, as amended. For every text in the input and every index [i] of
    the current completions list, [selectAutocompletion i] leaves in the
    input the text whose last token (tokens being what
    [splitSearchQuerySelector], a space by default, delimits) is replaced
    by [completions[i]], followed by one more separator: what stands
    before the last token is kept as it is, the completion takes the place
    of the last token, and the selector is appended. Only the empty text
    split at the empty selector has no token to replace; the completion is
    then all there is. *)
Theorem selectAutocompletion_splices (props : SearchInputProps) (st : State)
    (i : Z) (c : string) :
  completionAt (completions st) i = Some c →
  let sep := selector props in
  let value' := value (exec (selectAutocompletion props i) st) in
  value' = replaceLastToken sep (value st) c +:+ sep
  ∧ ((∃ before token,
        last (split sep (value st)) = Some token
        ∧ value st = before +:+ token
        ∧ value' = before +:+ c +:+ sep)
     ∨ (sep = "" ∧ value st = "" ∧ value' = c)).
Proof.
  intros Hc sep value'. split.
  - subst value'. by rewrite selectAutocompletion_value, Hc.
  - pose proof (selectAutocompletion_text props i st) as Htext.
    cbv zeta in Htext. by rewrite Hc in Htext.
Qed.

Lemma selectAutocompletion_splices_witness :
  completionAt (completions typing) 1 = Some "baz"
  ∧ value (exec (selectAutocompletion defaultProps 1) typing)
    = replaceLastToken " " "foo b" "baz" +:+ " ".
Proof.
  split; [reflexivity|].
  destruct (selectAutocompletion_splices defaultProps typing 1 "baz" eq_refl) as [H _].
  exact H.
Defined.

(** C2, as stated, fails: with "foo b" in the input and the completion
    "bar" selected, the input holds "foo bar " (with the separator at its
    end), which is not "foo b" with its last token replaced by "bar". *)
Lemma selectAutocompletion_appends_selector :
  completionAt (completions typing) 0 = Some "bar"
  ∧ value (exec (selectAutocompletion defaultProps 0) typing) = "foo bar "
  ∧ replaceLastToken (selector defaultProps) (value typing) "bar" = "foo bar"
  ∧ value (exec (selectAutocompletion defaultProps 0) typing)
    ≠ replaceLastToken (selector defaultProps) (value typing) "bar".
Proof. repeat split; try reflexivity. vm_compute. discriminate. Qed.

(** C9, as amended. [selectAutocompletion] gives a result for every
    (integer) index. The completions are an array whatever the context
    holds, so the test [!!completions] succeeds and the branch that would
    put the typed prefix back is never taken. For an index outside the
    completions list (any index, when the list is empty) the last token of
    the text is replaced by the empty string, and the separator is
    appended after it: what stands before the last token is kept and
    followed by the selector. *)
Theorem selectAutocompletion_out_of_range (props : SearchInputProps) (st : State) (i : Z) :
  ∃ a, completions st = JArr a
    ∧ truthy (completions st) = true
    ∧ (((i < 0)%Z ∨ (Z.of_nat (length a) ≤ i)%Z) →
       let sep := selector props in
       let value' := value (exec (selectAutocompletion props i) st) in
       value' = replaceLastToken sep (value st) "" +:+ sep
       ∧ ((∃ before token,
             last (split sep (value st)) = Some token
             ∧ value st = before +:+ token
             ∧ value' = before +:+ sep)
          ∨ (sep = "" ∧ value st = "" ∧ value' = ""))).
Proof.
  destruct (completions_array st) as [a Ha]. exists a.
  split; [done|]. split; [apply completions_truthy|].
  intros Hi sep value'.
  assert (completionAt (completions st) i = None) as Hnone.
  { rewrite Ha. unfold completionAt, index. destruct (Z.ltb_spec i 0) as [|Hge]; [done|].
    apply lookup_ge_None. lia. }
  split.
  - subst value'. by rewrite selectAutocompletion_value, Hnone.
  - pose proof (selectAutocompletion_text props i st) as Htext.
    cbv zeta in Htext. by rewrite Hnone in Htext.
Qed.

Lemma selectAutocompletion_out_of_range_witness :
  completions typing = JArr ["bar"; "baz"]
  ∧ (Z.of_nat (length ["bar"; "baz"]) ≤ 2)%Z
  ∧ value (exec (selectAutocompletion defaultProps 2) typing)
    = replaceLastToken " " "foo b" "" +:+ " ".
Proof.
  split; [reflexivity|]. split; [cbn; lia|].
  destruct (selectAutocompletion_out_of_range defaultProps typing 2) as (a & Ha & _ & Hv).
  destruct Hv as [Hv _]; [|exact Hv].
  right. injection Ha as <-. cbn. lia.
Defined.

(** C9, as stated, fails: with "foo b" in the input and index 2 of a list
    of two completions, the input holds "foo  " (the empty string in place
    of "b", then the separator), which is not "foo b" with its last token
    replaced by the empty string. *)
Lemma selectAutocompletion_out_of_range_appends_selector :
  completions typing = JArr ["bar"; "baz"]
  ∧ value (exec (selectAutocompletion defaultProps 2) typing) = "foo  "
  ∧ replaceLastToken (selector defaultProps) (value typing) "" = "foo "
  ∧ value (exec (selectAutocompletion defaultProps 2) typing)
    ≠ replaceLastToken (selector defaultProps) (value typing) "".
Proof. repeat split; try reflexivity. vm_compute. discriminate. Qed.

(** *** The spelling suggestion *)

Lemma truthy_JStr (q : string) : truthy (JStr q) = true ↔ q ≠ "".
Proof.
  cbn. destruct (String.eqb_spec q ""); cbn; split; congruence.
Qed.

Lemma selectSuggestion_state (st : State) (q : string) :
  suggestedQuery st = Some q → q ≠ "" →
  exec selectSuggestion st
  = {| searchParameters := searchParameters st;
       searchResponse := searchResponse st;
       autocompletionResults := autocompletionResults st;
       value := q;
       skipFetchAutoCompletions := true;
       inputField := inputField st;
       calls := calls st
                ++ PreventDefault
                   :: PerformSearch (prepareFreshSearchParameters (searchParameters st) q)
                   :: (if inputField st then [BlurInput] else []) |}.
Proof.
  intros Hq Hne. apply truthy_JStr in Hne.
  run_handler. rewrite Hq, Hne. cbn.
  destruct (inputField st) eqn:Hf; cbn; rewrite ?Hf; by rewrite <- ?app_assoc.
Qed.

(** Without a suggestion at hand the handler does nothing but
    [preventDefault]. *)
Lemma selectSuggestion_none (st : State) :
  hasSuggestedQuery st = false →
  calls (exec selectSuggestion st) = calls st ++ [PreventDefault]
  ∧ value (exec selectSuggestion st) = value st
  ∧ skipFetchAutoCompletions (exec selectSuggestion st) = skipFetchAutoCompletions st.
Proof.
  unfold hasSuggestedQuery. run_handler.
  destruct (suggestedQuery st) as [q|]; [intros ->|]; done.
Qed.

(** *** The debounce effect *)

Lemma debounceEffect_state (term : string) (st : State) :
  exec (debounceEffect term) st
  = {| searchParameters := debounceUpdater term (searchParameters st);
       searchResponse := searchResponse st;
       autocompletionResults := autocompletionResults st;
       value := value st;
       skipFetchAutoCompletions := false;
       inputField := inputField st;
       calls := calls st ++ (if skipFetchAutoCompletions st then []
                             else [FetchAutocompletions term]) |}.
Proof.
  run_handler. destruct (skipFetchAutoCompletions st) eqn:Hskip; cbn.
  - by rewrite app_nil_r.
  - done.
Qed.

(** C3, as amended. Each run of the debounce effect, that is each time the
    text debounced by 500 ms changes, calls [fetchAutocompletions] once
    with the debounced text and nothing else, unless
    [skipFetchAutoCompletions] is set: then it calls nothing and clears
    the flag. *)
Theorem debounceEffect_fetches (term : string) (st : State) :
  calls (exec (debounceEffect term) st)
  = calls st ++ (if skipFetchAutoCompletions st then [] else [FetchAutocompletions term])
  ∧ skipFetchAutoCompletions (exec (debounceEffect term) st) = false.
Proof. by rewrite debounceEffect_state. Qed.

(** C3, as stated, fails: after a click on the spelling suggestion "food"
    the input text has changed to "food", and the run of the debounce
    effect for it calls no [fetchAutocompletions] at all; nor is a text
    typed right after the click fetched when it is the next debounced
    one. *)
Lemma debounceEffect_skips_after_suggestion :
  value typing = "foo b"
  ∧ value (exec selectSuggestion typing) = "food"
  ∧ fetches (calls (exec (run defaultProps [SuggestionClick; DebouncedTerm "food"]) typing)) = []
  ∧ fetches (calls (exec (run defaultProps
       [SuggestionClick; Change (Some "foods"); DebouncedTerm "foods"]) typing)) = []
  ∧ FetchAutocompletions "food"
    ∉ calls (exec (debounceEffect "food") (exec selectSuggestion typing)).
Proof.
  split_and!; [reflexivity..|].
  rewrite debounceEffect_state, (selectSuggestion_state typing "food") by done.
  cbn. rewrite !list_elem_of_In. cbn. intuition discriminate.
Qed.

(** C7. A run of the debounce effect updates the shared search parameters
    so that [natural_language_query] is the debounced text; every other
    field is what it was. *)
Theorem debounceEffect_searchParameters (term : string) (st : State) :
  searchParameters (exec (debounceEffect term) st) !! "natural_language_query"
  = Some (JStr term)
  ∧ ∀ k, k ≠ "natural_language_query" →
      searchParameters (exec (debounceEffect term) st) !! k = searchParameters st !! k.
Proof.
  rewrite debounceEffect_state. cbn [searchParameters]. unfold debounceUpdater. split.
  - apply lookup_insert_eq.
  - intros k Hk. by apply lookup_insert_ne.
Qed.

Lemma debounceEffect_searchParameters_witness :
  "offset" ≠ "natural_language_query"
  ∧ searchParameters (exec (debounceEffect "foo b") typing) !! "offset" = Some (JNum 20).
Proof.
  split; [discriminate|].
  destruct (debounceEffect_searchParameters "foo b" typing) as [_ H].
  rewrite H by discriminate. reflexivity.
Defined.

(** *** Submitting a search *)

Lemma prepareFresh_lookup (sp : QueryParams) (nlq : string) :
  let p := prepareFreshSearchParameters sp nlq in
  p !! "offset" = Some (JNum 0)
  ∧ p !! "filter" = Some (JStr "")
  ∧ p !! "natural_language_query" = Some (JStr nlq)
  ∧ ∀ k, k ≠ "offset" → k ≠ "filter" → k ≠ "natural_language_query" → p !! k = sp !! k.
Proof.
  cbv zeta. unfold prepareFreshSearchParameters. split_and!.
  - rewrite lookup_insert_ne by done. apply lookup_insert_eq.
  - apply lookup_insert_eq.
  - rewrite !lookup_insert_ne by done. apply lookup_insert_eq.
  - intros k ???. by rewrite !lookup_insert_ne.
Qed.

Lemma searchAndBlur_calls (text : string) (st : State) :
  exec (searchAndBlur text) st
  = {| searchParameters := searchParameters st;
       searchResponse := searchResponse st;
       autocompletionResults := autocompletionResults st;
       value := value st;
       skipFetchAutoCompletions := skipFetchAutoCompletions st;
       inputField := inputField st;
       calls := calls st
                ++ PerformSearch (prepareFreshSearchParameters (searchParameters st) text)
                   :: (if inputField st then [BlurInput] else []) |}.
Proof.
  run_handler. destruct (inputField st) eqn:Hf; cbn; rewrite ?Hf.
  - by rewrite <- app_assoc.
  - done.
Qed.

Lemma enter_calls (st : State) :
  calls (exec (handleOnKeyUp "Enter") st)
  = calls st
    ++ PerformSearch (prepareFreshSearchParameters (searchParameters st) (value st))
       :: (if inputField st then [BlurInput] else []).
Proof.
  change (exec (handleOnKeyUp "Enter") st) with (exec (searchAndBlur (value st)) st).
  by rewrite searchAndBlur_calls.
Qed.

(** C6. The Enter key in the search input performs exactly one search,
    whose parameters have the current input text as
    [natural_language_query]. *)
Theorem enter_performs_search (st : State) :
  ∃ params,
    calls (exec (handleOnKeyUp "Enter") st)
    = calls st ++ PerformSearch params :: (if inputField st then [BlurInput] else [])
    ∧ params !! "natural_language_query" = Some (JStr (value st)).
Proof.
  exists (prepareFreshSearchParameters (searchParameters st) (value st)).
  split; [apply enter_calls|]. apply prepareFresh_lookup.
Qed.

(** C8, as stated, fails: with "foo" as the query of the current search
    parameters and "foo b" typed in the input, the parameters submitted on
    Enter differ from the current ones in [natural_language_query], a
    field other than [offset] and [filter]. *)
Lemma fresh_parameters_change_query :
  calls (exec (handleOnKeyUp "Enter") typing)
  = [PerformSearch (prepareFreshSearchParameters (searchParameters typing) "foo b"); BlurInput]
  ∧ searchParameters typing !! "natural_language_query" = Some (JStr "foo")
  ∧ prepareFreshSearchParameters (searchParameters typing) "foo b"
      !! "natural_language_query" = Some (JStr "foo b")
  ∧ ¬ (∀ k, k ≠ "offset" → k ≠ "filter" →
         prepareFreshSearchParameters (searchParameters typing) "foo b" !! k
         = searchParameters typing !! k).
Proof.
  assert (searchParameters typing !! "natural_language_query" = Some (JStr "foo")) as Hold
    by apply lookup_insert_eq.
  split_and!; [apply enter_calls | done | apply prepareFresh_lookup |].
  intros H. specialize (H "natural_language_query").
  rewrite Hold in H. destruct (prepareFresh_lookup (searchParameters typing) "foo b")
    as (_ & _ & Hnew & _). rewrite Hnew in H.
  by specialize (H ltac:(done) ltac:(done)).
Qed.

(** What one event adds to the trace. *)
Lemma handle_calls (props : SearchInputProps) (e : event) (st : State) :
  ∃ new, calls (exec (handle props e) st) = calls st ++ new
    ∧ searches new
      = match e with
        | KeyUp key =>
            if String.eqb key "Enter"
            then [prepareFreshSearchParameters (searchParameters st) (value st)]
            else []
        | SuggestionClick =>
            match suggestedQuery st with
            | Some q =>
                if truthy (JStr q)
                then [prepareFreshSearchParameters (searchParameters st) q]
                else []
            | None => []
            end
        | _ => []
        end
    ∧ fetches new
      = match e with
        | DebouncedTerm term => if skipFetchAutoCompletions st then [] else [term]
        | _ => []
        end.
Proof.
  destruct e as [target|key|i|i key| |term]; cbn [handle].
  - exists []. by rewrite app_nil_r.
  - unfold handleOnKeyUp. destruct (String.eqb key "Enter") eqn:Hk.
    + change (exec _ st) with (exec (searchAndBlur (value st)) st).
      rewrite searchAndBlur_calls. eexists; split; [done|]. by destruct (inputField st).
    + exists []. by rewrite app_nil_r.
  - unfold setupHandleAutocompletionOnClick. rewrite selectAutocompletion_state.
    eexists; split; [done|]. by destruct (inputField st).
  - unfold setupHandleAutocompletionKeyUp. destruct (String.eqb key "Enter").
    + rewrite selectAutocompletion_state.
      eexists; split; [done|]. by destruct (inputField st).
    + exists []. by rewrite app_nil_r.
  - destruct (suggestedQuery st) as [q|] eqn:Hq.
    + destruct (truthy (JStr q)) eqn:Ht.
      * rewrite (selectSuggestion_state st q) by (done || by apply truthy_JStr).
        eexists; split; [done|]. by destruct (inputField st).
      * exists [PreventDefault]. by run_handler; rewrite Hq, Ht.
    + exists [PreventDefault]. by run_handler; rewrite Hq.
  - rewrite debounceEffect_state. eexists; split; [done|].
    by destruct (skipFetchAutoCompletions st).
Qed.

(** C8, as amended. Every search submitted from the search box, by the
    Enter key or by a click on the spelling suggestion (no other event
    performs a search), has the parameters that
    [prepareFreshSearchParameters] makes of the current search parameters
    and the submitted text: [offset] is 0, [filter] is the empty string,
    [natural_language_query] is the submitted text, and every other field
    is as in the current search parameters. *)
Theorem search_box_submits_fresh_parameters (props : SearchInputProps) (e : event)
    (st : State) :
  ∃ submitted,
    searches (calls (exec (handle props e) st)) = searches (calls st) ++ submitted
    ∧ (e = KeyUp "Enter" →
       submitted = [prepareFreshSearchParameters (searchParameters st) (value st)])
    ∧ (∀ q, e = SuggestionClick → suggestedQuery st = Some q → q ≠ "" →
       submitted = [prepareFreshSearchParameters (searchParameters st) q])
    ∧ ∀ p, p ∈ submitted →
        ∃ text, p = prepareFreshSearchParameters (searchParameters st) text
          ∧ p !! "offset" = Some (JNum 0)
          ∧ p !! "filter" = Some (JStr "")
          ∧ p !! "natural_language_query" = Some (JStr text)
          ∧ ∀ k, k ≠ "offset" → k ≠ "filter" → k ≠ "natural_language_query" →
              p !! k = searchParameters st !! k.
Proof.
  destruct (handle_calls props e st) as (new & Hcalls & Hsearch & _).
  exists (searches new). split_and!.
  - rewrite Hcalls. apply omap_app.
  - intros ->. by rewrite Hsearch.
  - intros q -> Hq Hne. rewrite Hsearch, Hq. by apply truthy_JStr in Hne as ->.
  - intros p Hp. rewrite Hsearch in Hp.
    assert (∃ text, p = prepareFreshSearchParameters (searchParameters st) text)
      as [text ->].
    { destruct e; try by apply elem_of_nil in Hp.
      - destruct (String.eqb key "Enter"); [|by apply elem_of_nil in Hp].
        apply list_elem_of_singleton in Hp. eauto.
      - destruct (suggestedQuery st) as [q|]; [|by apply elem_of_nil in Hp].
        destruct (truthy (JStr q)); [|by apply elem_of_nil in Hp].
        apply list_elem_of_singleton in Hp. eauto. }
    exists text. split; [done|]. apply prepareFresh_lookup.
Qed.

Lemma search_box_submits_fresh_parameters_witness :
  ∃ submitted,
    searches (calls (exec (handle defaultProps (KeyUp "Enter")) typing)) = submitted
    ∧ submitted = [prepareFreshSearchParameters (searchParameters typing) "foo b"].
Proof.
  destruct (search_box_submits_fresh_parameters defaultProps (KeyUp "Enter") typing)
    as (submitted & Hs & Henter & _).
  exists submitted. split; [exact Hs|]. exact (Henter eq_refl).
Defined.

(** *** Sequences of events *)

Lemma exec_run_cons (props : SearchInputProps) (e : event) (es : list event) (st : State) :
  exec (run props (e :: es)) st = exec (run props es) (exec (handle props e) st).
Proof.
  cbn [run]. unfold exec, mbind, M_bind. by destruct (handle props e st) as [[] st'].
Qed.

Lemma exec_run_app (props : SearchInputProps) (es1 es2 : list event) (st : State) :
  exec (run props (es1 ++ es2)) st = exec (run props es2) (exec (run props es1) st).
Proof.
  revert st. induction es1 as [|e es1 IH]; intros st; [done|].
  by rewrite <- app_comm_cons, !exec_run_cons, IH.
Qed.

(** Only the debounce effect clears the flag, only the click on the
    suggestion sets it, and only the debounce effect fetches. *)
Lemma handle_skip (props : SearchInputProps) (e : event) (st : State) :
  isDebouncedTerm e = false →
  (skipFetchAutoCompletions st = true →
   skipFetchAutoCompletions (exec (handle props e) st) = true)
  ∧ (isSuggestionClick e = false →
     skipFetchAutoCompletions (exec (handle props e) st) = skipFetchAutoCompletions st).
Proof.
  destruct e as [target|key|i|i key| |term]; cbn [handle isDebouncedTerm isSuggestionClick];
    [..|done]; intros _.
  - done.
  - unfold handleOnKeyUp. destruct (String.eqb key "Enter"); [|done].
    change (exec _ st) with (exec (searchAndBlur (value st)) st).
    by rewrite searchAndBlur_calls.
  - unfold setupHandleAutocompletionOnClick. by rewrite selectAutocompletion_state.
  - unfold setupHandleAutocompletionKeyUp. destruct (String.eqb key "Enter"); [|done].
    by rewrite selectAutocompletion_state.
  - split; [|done]. intros Hskip.
    destruct (hasSuggestedQuery st) eqn:Hs.
    + unfold hasSuggestedQuery in Hs. destruct (suggestedQuery st) as [q|] eqn:Hq; [|done].
      apply truthy_JStr in Hs. by rewrite (selectSuggestion_state st q).
    + destruct (selectSuggestion_none st Hs) as (_ & _ & ->). done.
Qed.

Lemma handle_fetches (props : SearchInputProps) (e : event) (st : State) :
  isDebouncedTerm e = false →
  fetches (calls (exec (handle props e) st)) = fetches (calls st).
Proof.
  intros He. destruct (handle_calls props e st) as (new & -> & _ & Hf).
  unfold fetches in *. rewrite omap_app, Hf. destruct e; try apply app_nil_r. done.
Qed.

Lemma run_quiet (props : SearchInputProps) (es : list event) (st : State) :
  forallb (λ e, negb (isDebouncedTerm e)) es = true →
  fetches (calls (exec (run props es) st)) = fetches (calls st)
  ∧ (skipFetchAutoCompletions st = true →
     skipFetchAutoCompletions (exec (run props es) st) = true)
  ∧ (forallb (λ e, negb (isSuggestionClick e)) es = true →
     skipFetchAutoCompletions (exec (run props es) st) = skipFetchAutoCompletions st).
Proof.
  revert st. induction es as [|e es IH]; intros st Hes; [done|].
  cbn in Hes. apply andb_prop in Hes as [He Hes]. apply negb_true_iff in He.
  rewrite exec_run_cons.
  destruct (IH (exec (handle props e) st) Hes) as (IHf & IHt & IHs).
  destruct (handle_skip props e st He) as [Ht Hs].
  split_and!.
  - by rewrite IHf, handle_fetches.
  - auto.
  - cbn. intros [Hc Hcs]%andb_prop. apply negb_true_iff in Hc.
    by rewrite IHs, Hs.
Qed.

(** C10. A click on the spelling-suggestion button (shown when there is a
    suggested query) sets the input value to the suggested query, performs
    one search, with that query, and sets [skipFetchAutoCompletions]. The
    flag stays set whatever else happens to the input until the debounce
    effect runs next; that run fetches nothing and clears the flag, and
    the run after it fetches again: exactly one fetch is left out. *)
Theorem selectSuggestion_skips_one_fetch (props : SearchInputProps) (st : State)
    (q : string) (es1 es2 : list event) (t1 t2 : string) :
  suggestedQuery st = Some q → q ≠ "" →
  forallb (λ e, negb (isDebouncedTerm e)) es1 = true →
  forallb (λ e, negb (isDebouncedTerm e)) es2 = true →
  forallb (λ e, negb (isSuggestionClick e)) es2 = true →
  let st1 := exec selectSuggestion st in
  let st2 := exec (run props (es1 ++ [DebouncedTerm t1])) st1 in
  let st3 := exec (run props (es2 ++ [DebouncedTerm t2])) st2 in
  value st1 = q
  ∧ searches (calls st1)
    = searches (calls st) ++ [prepareFreshSearchParameters (searchParameters st) q]
  ∧ prepareFreshSearchParameters (searchParameters st) q !! "natural_language_query"
    = Some (JStr q)
  ∧ skipFetchAutoCompletions st1 = true
  ∧ fetches (calls st2) = fetches (calls st)
  ∧ skipFetchAutoCompletions st2 = false
  ∧ fetches (calls st3) = fetches (calls st) ++ [t2].
Proof.
  intros Hq Hne Hes1 Hes2 Hclick st1 st2 st3.
  assert (fetches (calls st1) = fetches (calls st) ∧ skipFetchAutoCompletions st1 = true)
    as [Hf1 Hs1].
  { subst st1. rewrite (selectSuggestion_state st q) by done. cbn [calls skipFetchAutoCompletions].
    split; [|done]. unfold fetches. rewrite omap_app.
    destruct (inputField st); apply app_nil_r. }
  assert (fetches (calls st2) = fetches (calls st) ∧ skipFetchAutoCompletions st2 = false)
    as [Hf2 Hs2].
  { subst st2. rewrite exec_run_app, exec_run_cons. cbn [run handle]. unfold exec at 1. cbn [mret M_ret snd].
    destruct (run_quiet props es1 st1 Hes1) as (Hf & Ht & _).
    rewrite debounceEffect_state. cbn [calls skipFetchAutoCompletions].
    rewrite (Ht Hs1), app_nil_r, Hf. done. }
  split_and!; try done.
  - subst st1. by rewrite (selectSuggestion_state st q).
  - subst st1. rewrite (selectSuggestion_state st q) by done. cbn [calls].
    unfold searches. rewrite omap_app. by destruct (inputField st).
  - apply prepareFresh_lookup.
  - subst st3. rewrite exec_run_app, exec_run_cons. cbn [run handle]. unfold exec at 1. cbn [mret M_ret snd].
    destruct (run_quiet props es2 st2 Hes2) as (Hf & _ & Hkeep).
    rewrite debounceEffect_state. cbn [calls].
    rewrite (Hkeep Hclick), Hs2. unfold fetches in *. by rewrite omap_app, Hf, Hf2.
Qed.

Lemma selectSuggestion_skips_one_fetch_witness :
  suggestedQuery typing = Some "food"
  ∧ fetches (calls (exec (run defaultProps
       ([SuggestionClick] ++ ([Change (Some "foods")] ++ [DebouncedTerm "foods"])
        ++ ([KeyUp "Enter"; Change (Some "foot")] ++ [DebouncedTerm "foot"]))) typing))
    = ["foot"].
Proof.
  split; [reflexivity|].
  rewrite exec_run_app, exec_run_app.
  change (exec (run defaultProps [SuggestionClick]) typing) with (exec selectSuggestion typing).
  apply (selectSuggestion_skips_one_fetch defaultProps typing "food"
           [Change (Some "foods")] [KeyUp "Enter"; Change (Some "foot")] "foods" "foot");
    (reflexivity || discriminate).
Defined.

End SearchInputFacts.

(** ** The rule-group dropdown *)

Module RuleGroupDropdownFacts.

Import RuleGroupDropdown.

(** C4. The dropdown offers two items, All with value [','] and Any with
    value ['|']; selecting an item stores its value as the [operator] of
    the structured-query selection, so All gives [','] and Any gives
    ['|'], and leaves the rest of the selection as it was. *)
Theorem handleOnChange_operator (messages : Messages)
    (structuredQuerySelection : gmap string jsval) :
  ∃ allItem anyItem,
    ruleGroupDropdownItems messages = [allItem; anyItem]
    ∧ label allItem = ruleGroupDropdownAllOptionText messages
    ∧ label anyItem = ruleGroupDropdownAnyOptionText messages
    ∧ handleOnChange structuredQuerySelection {| selectedItem := allItem |} !! "operator"
      = Some (JStr ",")
    ∧ handleOnChange structuredQuerySelection {| selectedItem := anyItem |} !! "operator"
      = Some (JStr "|")
    ∧ ∀ item k, k ≠ "operator" →
        handleOnChange structuredQuerySelection {| selectedItem := item |} !! k
        = structuredQuerySelection !! k.
Proof.
  eexists _, _. split; [reflexivity|]. unfold handleOnChange. cbn.
  split_and!; try done; try apply lookup_insert_eq.
  intros item k Hk. by apply lookup_insert_ne.
Qed.

Lemma handleOnChange_operator_witness :
  handleOnChange {[ "operator" := JStr "," ]}
    {| selectedItem := {| label := "Any"; value := "|" |} |} !! "operator"
  = Some (JStr "|")
  ∧ handleOnChange {[ "group_order" := JArr ["0"] ]}
      {| selectedItem := {| label := "Any"; value := "|" |} |} !! "group_order"
    = Some (JArr ["0"]).
Proof.
  destruct (handleOnChange_operator
              {| ruleGroupDropdownAllOptionText := "All";
                 ruleGroupDropdownAnyOptionText := "Any" |}
              {[ "operator" := JStr "," ]})
    as (allItem & anyItem & Hitems & _ & _ & _ & Hany & _).
  injection Hitems as <- <-. split; [exact Hany|].
  destruct (handleOnChange_operator
              {| ruleGroupDropdownAllOptionText := "All";
                 ruleGroupDropdownAnyOptionText := "Any" |}
              {[ "group_order" := JArr ["0"] ]})
    as (_ & _ & _ & _ & _ & _ & _ & Hframe).
  rewrite Hframe by discriminate. apply lookup_singleton_eq.
Defined.

End RuleGroupDropdownFacts.

(** ** The refinement checkboxes *)

Module SearchRefinementsFacts.

Import DiscoveryV1 SearchRefinements StringFacts.

Lemma split_unit (c : Ascii.ascii) (s : string) :
  split (String c "") s = split_scan (String c "") 0 "" s.
Proof. reflexivity. Qed.

(** *** Construction and deconstruction of the filter string *)

Lemma parseToken_fieldToken (f : string) (ks : list string) :
  occurs ":"%char f = false → ks ≠ [] → Forall (λ k, occurs "|"%char k = false) ks →
  parseToken (f +:+ ":" +:+ join "|" ks) = Some (f, ks).
Proof.
  intros Hf Hks Hfree. unfold parseToken. rewrite (split_unit ":"%char).
  change (":" +:+ join "|" ks) with (String ":"%char (join "|" ks)).
  rewrite split_scan_free_app, sapp_nil_l by done.
  pose proof (join_split ":" (join "|" ks)) as Hjs. rewrite split_unit in Hjs.
  destruct (split_scan ":" 0 "" (join "|" ks)) as [|v rest] eqn:Hsc.
  - by apply split_scan_nonempty in Hsc.
  - by rewrite Hjs, split_join.
Qed.

Lemma fieldToken_no_comma (f : string) (ks : list string) :
  occurs ","%char f = false → Forall (λ k, occurs ","%char k = false) ks →
  occurs ","%char (f +:+ ":" +:+ join "|" ks) = false.
Proof.
  intros Hf Hks. rewrite !occurs_app, Hf, occurs_join; done.
Qed.

Lemma plainField_spec (f : string) :
  plainField f = true ↔ occurs ","%char f = false ∧ occurs ":"%char f = false.
Proof.
  unfold plainField. rewrite andb_true_iff, !negb_true_iff. done.
Qed.

Lemma plainKey_spec (k : string) :
  plainKey k = true ↔ occurs ","%char k = false ∧ occurs "|"%char k = false.
Proof.
  unfold plainKey. rewrite andb_true_iff, !negb_true_iff. done.
Qed.

Lemma plain_spec (rs : list Refinement) :
  plain rs = true ↔
  Forall (λ r, plainField (field r) = true
               ∧ Forall (λ c, plainKey (key c) = true) (checkboxes r)) rs.
Proof.
  unfold plain. rewrite forallb_forall, Forall_forall. setoid_rewrite <- list_elem_of_In.
  split; intros H r Hr; specialize (H r Hr).
  - apply andb_true_iff in H as [Hf Hk]. split; [done|].
    rewrite forallb_forall in Hk. apply Forall_forall. intros c Hc.
    apply Hk. by apply list_elem_of_In.
  - destruct H as [Hf Hk]. apply andb_true_iff. split; [done|].
    rewrite forallb_forall. intros c Hc. rewrite Forall_forall in Hk.
    apply Hk. by apply list_elem_of_In.
Qed.

Lemma checkedKeys_plain (r : Refinement) :
  Forall (λ c, plainKey (key c) = true) (checkboxes r) →
  Forall (λ k, plainKey k = true) (checkedKeys r).
Proof.
  unfold checkedKeys. intros H. apply Forall_fmap.
  apply Forall_forall. intros c [_ Hc]%list_elem_of_filter.
  rewrite Forall_forall in H. by apply H.
Qed.

Lemma omap_parseToken (sel : list Refinement) :
  Forall (λ r, occurs ":"%char (field r) = false
               ∧ checkedKeys r ≠ []
               ∧ Forall (λ k, occurs "|"%char k = false) (checkedKeys r)) sel →
  omap parseToken (fieldToken <$> sel) = (λ r, (field r, checkedKeys r)) <$> sel.
Proof.
  induction 1 as [|r sel (Hf & Hne & Hk) _ IH]; [done|].
  cbn. unfold fieldToken at 1. rewrite parseToken_fieldToken by done. cbn.
  by rewrite IH.
Qed.

(** Taking apart the filter built from the checkboxes gives back the
    fields that have checked values, each with its checked values. *)
Lemma parseFilter_buildFilter (rs : list Refinement) :
  plain rs = true →
  parseFilter (buildFilter rs) = (λ r, (field r, checkedKeys r)) <$> selected rs.
Proof.
  intros Hplain%plain_spec. unfold parseFilter, buildFilter.
  assert (Forall (λ r, plainField (field r) = true
                       ∧ checkedKeys r ≠ []
                       ∧ Forall (λ k, plainKey k = true) (checkedKeys r)) (selected rs))
    as Hsel.
  { apply Forall_forall. intros r [Hne Hr]%list_elem_of_filter.
    rewrite Forall_forall in Hplain. destruct (Hplain r Hr) as [Hf Hk].
    split_and!; [done..|]. by apply checkedKeys_plain. }
  destruct (selected rs) as [|r sel]; [done|].
  rewrite split_join.
  - apply omap_parseToken. eapply Forall_impl; [exact Hsel|].
    intros r' (Hf%plainField_spec & Hne & Hk). split_and!; [apply Hf | done |].
    eapply Forall_impl; [exact Hk|]. by intros k' [_ ?]%plainKey_spec.
  - done.
  - apply Forall_fmap. eapply Forall_impl; [exact Hsel|].
    intros r' (Hf%plainField_spec & Hne & Hk). apply fieldToken_no_comma; [apply Hf|].
    eapply Forall_impl; [exact Hk|]. by intros k' [? _]%plainKey_spec.
Qed.

(** *** Checking and unchecking *)

Lemma setChecked_plain (f k : string) (b : bool) (rs : list Refinement) :
  plain (setChecked f k b rs) = plain rs.
Proof.
  unfold plain, setChecked. induction rs as [|r rs IH]; [done|].
  rewrite fmap_cons. cbn [forallb]. rewrite IH. f_equal.
  destruct (decide (field r = f)); [|done]. cbn [field checkboxes]. f_equal.
  clear. induction (checkboxes r) as [|c cs IHc]; [done|].
  rewrite fmap_cons. cbn [forallb]. rewrite IHc. by destruct (decide (key c = k)).
Qed.

(** The checked values of a field after one of its values is unchecked. *)
Lemma checkedKeys_unchecked (k : string) (cs : list Checkbox) :
  key <$> filter (λ c, checked c = true)
            ((λ c, if decide (key c = k) then {| key := key c; checked := false |} else c)
               <$> cs)
  = filter (λ v, v ≠ k) (key <$> filter (λ c, checked c = true) cs).
Proof.
  induction cs as [|c cs IH]; [done|].
  rewrite fmap_cons, !filter_cons.
  destruct (decide (key c = k)) as [Hk|Hk]; cbn [checked key].
  - destruct (decide (false = true)); [done|].
    destruct (decide (checked c = true)); [|done].
    rewrite fmap_cons, filter_cons. by destruct (decide (key c ≠ k)).
  - destruct (decide (checked c = true)); [|done].
    rewrite !fmap_cons, filter_cons. destruct (decide (key c ≠ k)); [|done].
    by rewrite IH.
Qed.

(** The checked values of a field after one of its values is checked. *)
Lemma checkedKeys_checked (k : string) (cs : list Checkbox) :
  key <$> filter (λ c, checked c = true)
            ((λ c, if decide (key c = k) then {| key := key c; checked := true |} else c)
               <$> cs)
  = key <$> filter (λ c, checked c = true ∨ key c = k) cs.
Proof.
  induction cs as [|c cs IH]; [done|].
  rewrite fmap_cons, !filter_cons.
  destruct (decide (key c = k)) as [Hk|Hk]; cbn [checked key].
  - destruct (decide (true = true)); [|done].
    destruct (decide (checked c = true ∨ key c = k)) as [|Hn]; [|by destruct Hn; right].
    by rewrite !fmap_cons, IH.
  - destruct (decide (checked c = true)).
    + destruct (decide (checked c = true ∨ key c = k)) as [|Hn]; [|by destruct Hn; left].
      by rewrite !fmap_cons, IH.
    + destruct (decide (checked c = true ∨ key c = k)) as [[|]|]; done.
Qed.

Lemma setChecked_unchecked (f k : string) (rs : list Refinement) :
  (λ r, (field r, checkedKeys r)) <$> setChecked f k false rs
  = (λ r, (field r,
           if decide (field r = f) then filter (λ v, v ≠ k) (checkedKeys r)
           else checkedKeys r)) <$> rs.
Proof.
  unfold setChecked. rewrite <- list_fmap_compose. apply list_fmap_ext.
  intros _ r _. cbn. destruct (decide (field r = f)); [|done].
  unfold checkedKeys at 1. cbn [field checkboxes]. by rewrite checkedKeys_unchecked.
Qed.

Lemma setChecked_checked (f k : string) (rs : list Refinement) :
  (λ r, (field r, checkedKeys r)) <$> setChecked f k true rs
  = (λ r, (field r,
           if decide (field r = f)
           then key <$> filter (λ c, checked c = true ∨ key c = k) (checkboxes r)
           else checkedKeys r)) <$> rs.
Proof.
  unfold setChecked. rewrite <- list_fmap_compose. apply list_fmap_ext.
  intros _ r _. cbn. destruct (decide (field r = f)); [|done].
  unfold checkedKeys at 1. cbn [field checkboxes]. by rewrite checkedKeys_checked.
Qed.

Lemma selected_nil (rs : list Refinement) :
  Forall (λ r, checkedKeys r = []) rs → selected rs = [].
Proof.
  unfold selected. induction 1 as [|r rs Hr _ IH]; [done|].
  rewrite filter_cons. by destruct (decide (checkedKeys r ≠ [])).
Qed.

Lemma handleOnChange_filter (searchParameters : QueryParams) (rs : list Refinement)
    (f k : string) (b : bool) :
  handleOnChange searchParameters rs f k b
  = (setChecked f k b rs,
     [ <["filter" := JStr (buildFilter (setChecked f k b rs))]>
         (<["offset" := JNum 0]> searchParameters) ]).
Proof. reflexivity. Qed.

(** C1. Whatever the checkboxes are and whichever is clicked, one search
    is performed, and its filter string is made of the checked checkboxes
    as they are after the click: one token [field:values] for each field
    that has checked values, the values of a field joined by ['|'], the
    tokens of the fields joined by [','], in the order of the configured
    fields. Taken apart at these delimiters (when they do not occur in the
    fields and values themselves) the string gives back exactly those
    fields with their checked values. Checking "News Staff" of [author]
    while the filter is 'subject:Animals' gives
    'author:News Staff,subject:Animals'. *)
Theorem checkboxes_apply_filters (searchParameters : QueryParams) (rs : list Refinement)
    (f k : string) (b : bool) :
  let rs' := (handleOnChange searchParameters rs f k b).1 in
  (∃ filter',
     (handleOnChange searchParameters rs f k b).2
     = [ <["filter" := JStr filter']> (<["offset" := JNum 0]> searchParameters) ]
     ∧ filter'
       = join "," ((λ r, field r +:+ ":" +:+ join "|" (checkedKeys r)) <$> selected rs')
     ∧ (plain rs = true →
        parseFilter filter' = (λ r, (field r, checkedKeys r)) <$> selected rs'))
  ∧ ∃ params,
      (click (setup "subject:Animals") "author" "News Staff" true).2 = [params]
      ∧ params !! "filter" = Some (JStr "author:News Staff,subject:Animals").
Proof.
  rewrite handleOnChange_filter. cbn [fst snd]. split.
  - exists (buildFilter (setChecked f k b rs)). split_and!; [done..|].
    intros Hplain. apply parseFilter_buildFilter. by rewrite setChecked_plain.
  - eexists. split; [reflexivity|]. rewrite lookup_insert_eq.
    vm_compute. reflexivity.
Qed.

Lemma checkboxes_apply_filters_witness :
  plain (setup "subject:Animals").2 = true
  ∧ parseFilter "subject:Animals|People" = [("subject", ["Animals"; "People"])]
  ∧ (λ r, (field r, checkedKeys r))
      <$> selected (click (setup "subject:Animals") "subject" "People" true).1
    = [("subject", ["Animals"; "People"])].
Proof.
  split; [reflexivity|].
  destruct (checkboxes_apply_filters (setup "subject:Animals").1 (setup "subject:Animals").2
              "subject" "People" true) as [(filter' & _ & Hfilter & Hparse) _].
  specialize (Hparse eq_refl).
  assert (filter' = "subject:Animals|People") as Heq by (rewrite Hfilter; reflexivity).
  rewrite Heq in Hparse. split; [reflexivity|].
  unfold click. rewrite <- Hparse. reflexivity.
Defined.

(** The three tests of 'checkboxes apply filters'. *)
Example adds_filter_for_one_checkbox :
  ∃ params, (click (setup "") "subject" "Animals" true).2 = [params]
    ∧ params !! "filter" = Some (JStr "subject:Animals").
Proof.
  eexists. split; [reflexivity|]. rewrite lookup_insert_eq.
  vm_compute. reflexivity.
Qed.

Example adds_filter_for_second_checkbox :
  ∃ params, (click (setup "subject:Animals") "subject" "People" true).2 = [params]
    ∧ params !! "filter" = Some (JStr "subject:Animals|People").
Proof.
  eexists. split; [reflexivity|]. rewrite lookup_insert_eq.
  vm_compute. reflexivity.
Qed.

Example adds_filter_for_second_refinement :
  ∃ params, (click (setup "subject:Animals") "author" "News Staff" true).2 = [params]
    ∧ params !! "filter" = Some (JStr "author:News Staff,subject:Animals").
Proof.
  eexists. split; [reflexivity|]. rewrite lookup_insert_eq.
  vm_compute. reflexivity.
Qed.

Lemma onlyChecked_spec (f k : string) (rs : list Refinement) :
  onlyChecked f k rs = true →
  ∀ r c, r ∈ rs → c ∈ checkboxes r → checked c = true → field r = f ∧ key c = k.
Proof.
  unfold onlyChecked. rewrite forallb_forall. intros H r c Hr Hc Hchecked.
  apply list_elem_of_In in Hr, Hc. specialize (H r Hr). rewrite forallb_forall in H.
  specialize (H c Hc). rewrite Hchecked in H. cbn in H.
  apply andb_true_iff in H as [?%bool_decide_eq_true ?%bool_decide_eq_true]. done.
Qed.

(** The fields with checked values, each with its checked values, read
    off the fields with all their values. *)
Lemma selected_pairs (rs : list Refinement) :
  (λ r, (field r, checkedKeys r)) <$> selected rs
  = omap (λ t : string * list string, match t.2 with [] => None | _ => Some t end)
      ((λ r, (field r, checkedKeys r)) <$> rs).
Proof.
  unfold selected. induction rs as [|r rs IH]; [done|].
  rewrite filter_cons, fmap_cons. cbn [omap list_omap]. cbn [snd]. rewrite <- IH.
  destruct (decide (checkedKeys r ≠ [])) as [Hne|He].
  - rewrite fmap_cons. by destruct (checkedKeys r).
  - destruct (checkedKeys r); [done|]. by destruct He.
Qed.

Lemma withoutValue_pairs (f k : string) (pairs : list (string * list string)) :
  omap (λ t : string * list string, match t.2 with [] => None | _ => Some t end)
    ((λ t, (t.1, if decide (t.1 = f) then filter (λ v, v ≠ k) t.2 else t.2)) <$> pairs)
  = withoutValue f k
      (omap (λ t : string * list string, match t.2 with [] => None | _ => Some t end) pairs).
Proof.
  unfold withoutValue. induction pairs as [|[g vs] pairs IH]; [done|].
  rewrite fmap_cons. cbn [omap list_omap fst snd]. rewrite IH. clear IH.
  destruct vs as [|v vs].
  - by destruct (decide (g = f)).
  - cbn [omap list_omap fst snd].
    by destruct (if decide (g = f) then filter (λ v0, v0 ≠ k) (v :: vs) else v :: vs).
Qed.

(** What is checked after a value is unchecked, read off what was checked
    before. *)
Lemma selected_unchecked (f k : string) (rs : list Refinement) :
  (λ r, (field r, checkedKeys r)) <$> selected (setChecked f k false rs)
  = withoutValue f k ((λ r, (field r, checkedKeys r)) <$> selected rs).
Proof.
  rewrite !selected_pairs, setChecked_unchecked, <- withoutValue_pairs.
  f_equal. by rewrite <- list_fmap_compose.
Qed.

(** C5. Unchecking a checkbox performs one search, from the first result
    again, whose filter is built from what is still checked: the value is
    gone from the checked values of its field and every other field keeps
    its checked values. At the level of the string (the delimiters not
    occurring in fields and values): taken apart, the new filter lists
    exactly the fields and values that were checked before, in their
    order, without the unchecked value, and without the token of its
    field when that value was the only one in it; this is also what the
    old filter string lists, with that value taken out. No token of the
    field in the new filter lists the value. When the unchecked value was
    the only checked one, the filter of that one search is the empty
    string. Unchecking "People" of [subject] while the filter is
    'author:News Staff,subject:Animals|People' gives
    'author:News Staff,subject:Animals'. *)
Theorem unchecking_removes_filter (searchParameters : QueryParams) (rs : list Refinement)
    (f k : string) :
  let rs' := (handleOnChange searchParameters rs f k false).1 in
  let performed := (handleOnChange searchParameters rs f k false).2 in
  performed
  = [ <["filter" := JStr (buildFilter rs')]> (<["offset" := JNum 0]> searchParameters) ]
  ∧ (λ r, (field r, checkedKeys r)) <$> rs'
    = (λ r, (field r,
             if decide (field r = f) then filter (λ v, v ≠ k) (checkedKeys r)
             else checkedKeys r)) <$> rs
  ∧ (plain rs = true →
     parseFilter (buildFilter rs')
     = withoutValue f k ((λ r, (field r, checkedKeys r)) <$> selected rs)
     ∧ parseFilter (buildFilter rs') = withoutValue f k (parseFilter (buildFilter rs))
     ∧ ∀ vs, (f, vs) ∈ parseFilter (buildFilter rs') → k ∉ vs)
  ∧ (onlyChecked f k rs = true →
     ∃ params, performed = [params]
       ∧ params !! "filter" = Some (JStr "")
       ∧ params !! "offset" = Some (JNum 0))
  ∧ ∃ params,
      (click (setup "author:News Staff,subject:Animals|People") "subject" "People" false).2
      = [params]
      ∧ params !! "filter" = Some (JStr "author:News Staff,subject:Animals")
      ∧ params !! "offset" = Some (JNum 0).
Proof.
  rewrite handleOnChange_filter. cbn [fst snd].
  pose proof (setChecked_unchecked f k rs) as Hkeys.
  assert (∀ r', r' ∈ setChecked f k false rs →
            ∃ r, r ∈ rs ∧ field r' = field r
              ∧ checkedKeys r'
                = if decide (field r = f) then filter (λ v, v ≠ k) (checkedKeys r)
                  else checkedKeys r) as Hafter.
  { intros r' Hr'.
    assert ((field r', checkedKeys r')
            ∈ (λ r, (field r, checkedKeys r)) <$> setChecked f k false rs) as Hin.
    { apply list_elem_of_fmap. eauto. }
    rewrite Hkeys in Hin. apply list_elem_of_fmap in Hin as (r & Heq & Hr).
    injection Heq as ? ?. eauto. }
  split_and!; [done | done | | |].
  - intros Hplain.
    assert (parseFilter (buildFilter (setChecked f k false rs))
            = withoutValue f k ((λ r, (field r, checkedKeys r)) <$> selected rs)) as Hparse.
    { rewrite parseFilter_buildFilter by (by rewrite setChecked_plain).
      apply selected_unchecked. }
    split_and!; [done | by rewrite (parseFilter_buildFilter rs) |].
    intros vs Hvs.
    rewrite parseFilter_buildFilter in Hvs by (by rewrite setChecked_plain).
    apply list_elem_of_fmap in Hvs as (r' & Heq & [_ Hr']%list_elem_of_filter).
    injection Heq as Hf ->.
    destruct (Hafter r' Hr') as (r & _ & Hfield & ->).
    rewrite decide_True by congruence.
    intros [Hne _]%list_elem_of_filter. done.
  - intros Honly. pose proof (onlyChecked_spec f k rs Honly) as Hspec. clear Honly.
    eexists. split; [done|].
    rewrite lookup_insert_eq, lookup_insert_ne, lookup_insert_eq by done.
    split; [|done]. do 2 f_equal. unfold buildFilter.
    rewrite selected_nil; [done|].
    apply Forall_forall. intros r' Hr'.
    destruct (Hafter r' Hr') as (r & Hr & _ & ->).
    assert (∀ v, v ∈ checkedKeys r → field r = f ∧ v = k) as Hall.
    { intros v (c & -> & [Hc Hcin]%list_elem_of_filter)%list_elem_of_fmap. eauto. }
    destruct (decide (field r = f)).
    + induction (checkedKeys r) as [|v vs IH]; [done|].
      rewrite filter_cons. destruct (Hall v) as [_ ->]; [left|].
      destruct (decide (k ≠ k)); [done|]. apply IH. intros v' Hv'. apply Hall. by right.
    + destruct (checkedKeys r) as [|v vs]; [done|].
      destruct (Hall v) as [? _]; [left|]. done.
  - eexists. split; [reflexivity|].
    rewrite lookup_insert_eq, lookup_insert_ne, lookup_insert_eq by done.
    split; [|done]. vm_compute. reflexivity.
Qed.

Lemma unchecking_removes_filter_witness :
  let s := setup "subject:Animals" in
  let t := setup "author:News Staff,subject:Animals|People" in
  onlyChecked "subject" "Animals" s.2 = true
  ∧ (∃ params, (click s "subject" "Animals" false).2 = [params]
       ∧ params !! "filter" = Some (JStr "")
       ∧ params !! "offset" = Some (JNum 0))
  ∧ plain t.2 = true
  ∧ buildFilter t.2 = "author:News Staff,subject:Animals|People"
  ∧ parseFilter (buildFilter (click t "subject" "People" false).1)
    = [("author", ["News Staff"]); ("subject", ["Animals"])]
  ∧ parseFilter (buildFilter (click t "author" "News Staff" false).1)
    = [("subject", ["Animals"; "People"])].
Proof.
  cbv zeta. split; [reflexivity|]. split.
  { destruct (unchecking_removes_filter (setup "subject:Animals").1
                (setup "subject:Animals").2 "subject" "Animals") as (_ & _ & _ & H & _).
    exact (H eq_refl). }
  split; [reflexivity|]. split; [reflexivity|]. split.
  - destruct (unchecking_removes_filter
                (setup "author:News Staff,subject:Animals|People").1
                (setup "author:News Staff,subject:Animals|People").2 "subject" "People")
      as (_ & _ & H & _).
    destruct (H eq_refl) as (_ & Hold & _). unfold click. rewrite Hold. reflexivity.
  - destruct (unchecking_removes_filter
                (setup "author:News Staff,subject:Animals|People").1
                (setup "author:News Staff,subject:Animals|People").2 "author" "News Staff")
      as (_ & _ & H & _).
    destruct (H eq_refl) as (_ & Hold & _). unfold click. rewrite Hold. reflexivity.
Defined.

(** The test of 'checkboxes remove filters': the checkbox of a value that
    is in the filter is clicked once, which leaves it checked, and once
    more, which unchecks it. *)
Example removes_filter_when_unchecked :
  let s := setup "subject:Animals" in
  let checked := click s "subject" "Animals" true in
  ∃ params, (handleOnChange s.1 checked.1 "subject" "Animals" false).2 = [params]
    ∧ params !! "filter" = Some (JStr "")
    ∧ params !! "offset" = Some (JNum 0).
Proof.
  cbv zeta. eexists. split; [reflexivity|].
  rewrite lookup_insert_eq, lookup_insert_ne, lookup_insert_eq by done.
  split; [|done]. vm_compute. reflexivity.
Qed.

End SearchRefinementsFacts.

(** ** The search input: rendering, and sequences of events *)

Module SearchInputRenderFacts.

Import DiscoveryV1 SearchInput SearchInputRender StringFacts SearchInputFacts.

(** *** The last word of the text *)

Lemma last_split_scan_unit (c : Ascii.ascii) (x : string) :
  ∀ cur, last (split_scan (String c "") 0 cur (x +:+ String c "")) = Some "".
Proof.
  induction x as [|a x IH]; intros cur.
  - rewrite sapp_nil_l, split_scan_unit_cons. by destruct (Ascii.ascii_dec c c).
  - rewrite sapp_cons, split_scan_unit_cons. destruct (Ascii.ascii_dec c a); [|apply IH].
    rewrite last_cons, IH. done.
Qed.

Lemma last_split_scan_free (c : Ascii.ascii) (x w : string) :
  ∀ cur, occurs c cur = false →
  last (split_scan (String c "") 0 cur x) = Some w → occurs c w = false.
Proof.
  induction x as [|a x IH]; intros cur Hcur.
  - cbn. by intros [= <-].
  - rewrite split_scan_unit_cons. destruct (Ascii.ascii_dec c a) as [|Hne].
    + rewrite last_cons. destruct (last (split_scan (String c "") 0 "" x)) as [w'|] eqn:Hl.
      * intros [= <-]. by apply (IH "").
      * apply last_None in Hl. by apply split_scan_nonempty in Hl.
    + apply IH. rewrite occurs_app, Hcur. cbn. by destruct (Ascii.ascii_dec c a).
Qed.

Lemma lastWordOfValue_last (props : SearchInputProps) (st : State) :
  lastWordOfValue props st = last (split (selector props) (value st)).
Proof. reflexivity. Qed.

(** The text that ends in a one-unit selector has the empty last word. *)
Lemma lastWordOfValue_after_selector (props : SearchInputProps) (st : State)
    (c : Ascii.ascii) (x : string) :
  selector props = String c "" → value st = x +:+ String c "" →
  lastWordOfValue props st = Some "".
Proof.
  intros Hsep Hv. rewrite lastWordOfValue_last, Hsep, Hv.
  apply last_split_scan_unit.
Qed.

(** X6. The last word of the text is missing only when both the text and
    the selector are empty. Otherwise it is the tail of the text, and what
    stands before it is empty or ends in the selector; with a selector of
    one code unit (such as the default space) the selector does not occur
    in it. *)
Theorem lastWordOfValue_tail (props : SearchInputProps) (st : State) :
  (lastWordOfValue props st = None ↔ selector props = "" ∧ value st = "")
  ∧ (∀ w, lastWordOfValue props st = Some w →
       ∃ before, value st = before +:+ w
         ∧ (before = "" ∨ ∃ b, before = b +:+ selector props))
  ∧ (∀ c w, selector props = String c "" → lastWordOfValue props st = Some w →
       occurs c w = false).
Proof.
  rewrite lastWordOfValue_last. split_and!.
  - rewrite last_None. split; [apply split_nil|]. by intros [-> ->].
  - intros w [front Hsplit]%last_Some.
    pose proof (join_split (selector props) (value st)) as Hjoin. rewrite Hsplit in Hjoin.
    destruct front as [|x front].
    + exists "". split; [by rewrite <- Hjoin | by left].
    + exists (join (selector props) (x :: front) +:+ selector props).
      rewrite join_snoc in Hjoin by done. split; [by rewrite <- Hjoin, sapp_assoc|].
      right. eauto.
  - intros c w Hsep. rewrite Hsep. by apply last_split_scan_free.
Qed.

Lemma lastWordOfValue_tail_witness :
  selector defaultProps = " "
  ∧ lastWordOfValue defaultProps typing = Some "b"
  ∧ occurs " "%char "b" = false.
Proof.
  split; [reflexivity|]. split; [reflexivity|].
  destruct (lastWordOfValue_tail defaultProps typing) as (_ & _ & H).
  exact (H " "%char "b" eq_refl eq_refl).
Defined.

(** X7. The completions are shown only while the input has the focus and
    [showAutocomplete] is not [false]. With a non-empty selector they are
    not shown for the empty text, and with a selector of one code unit
    they are not shown for a text that ends in the selector. When both
    the text and the selector are empty the last word is [undefined],
    which is not [''], and the focus alone decides. *)
Theorem shouldShowCompletions_hidden (props : SearchInputProps)
    (showAutocomplete : option bool) (focused : bool) (st : State) :
  (shouldShowCompletions props showAutocomplete focused st = true →
   focused = true ∧ showAutocomplete ≠ Some false)
  ∧ (selector props ≠ "" → value st = "" →
     shouldShowCompletions props showAutocomplete focused st = false)
  ∧ (∀ c x, selector props = String c "" → value st = x +:+ String c "" →
     shouldShowCompletions props showAutocomplete focused st = false)
  ∧ (selector props = "" → value st = "" →
     shouldShowCompletions props showAutocomplete focused st
     = default true showAutocomplete && focused).
Proof.
  unfold shouldShowCompletions. split_and!.
  - intros [[_ Hs]%andb_prop Hf]%andb_prop. split; [done|]. by intros ->.
  - intros Hsep Hv. rewrite lastWordOfValue_last, Hv.
    destruct (selector props) as [|a sep]; [done|]. cbn [split split_scan last].
    by rewrite bool_decide_eq_true_2.
  - intros c x Hsep Hv. by rewrite (lastWordOfValue_after_selector props st c x).
  - intros Hsep Hv. by rewrite lastWordOfValue_last, Hsep, Hv.
Qed.

Lemma shouldShowCompletions_hidden_witness :
  shouldShowCompletions defaultProps None true typing = true
  ∧ selector defaultProps = " "
  ∧ shouldShowCompletions defaultProps None true
      (exec (handleOnChange (Some "foo ")) typing) = false.
Proof.
  split; [reflexivity|]. split; [reflexivity|].
  destruct (shouldShowCompletions_hidden defaultProps None true
              (exec (handleOnChange (Some "foo ")) typing)) as (_ & _ & H & _).
  exact (H " "%char "foo" eq_refl eq_refl).
Defined.

(** *** Selecting completions *)

Lemma selectAutocompletion_completions (props : SearchInputProps) (i : Z) (st : State) :
  completions (exec (selectAutocompletion props i) st) = completions st.
Proof. by rewrite selectAutocompletion_state. Qed.

(** X1. With a selector of one code unit (such as the default space),
    selecting a completion, whichever the index, leaves a text whose last
    word is empty, so the completions are no longer shown, whatever the
    focus. *)
Theorem selectAutocompletion_hides_completions (props : SearchInputProps) (i : Z)
    (st : State) (c : Ascii.ascii) :
  selector props = String c "" →
  lastWordOfValue props (exec (selectAutocompletion props i) st) = Some ""
  ∧ ∀ showAutocomplete focused,
      shouldShowCompletions props showAutocomplete focused
        (exec (selectAutocompletion props i) st) = false.
Proof.
  intros Hsep.
  assert (lastWordOfValue props (exec (selectAutocompletion props i) st) = Some "") as Hlast.
  { eapply lastWordOfValue_after_selector; [done|].
    rewrite selectAutocompletion_value. by rewrite Hsep at 3. }
  split; [done|]. intros sa focused. unfold shouldShowCompletions. by rewrite Hlast.
Qed.

Lemma selectAutocompletion_hides_completions_witness :
  selector defaultProps = " "
  ∧ shouldShowCompletions defaultProps None true typing = true
  ∧ shouldShowCompletions defaultProps None true
      (exec (selectAutocompletion defaultProps 0) typing) = false.
Proof.
  split; [reflexivity|]. split; [reflexivity|].
  destruct (selectAutocompletion_hides_completions defaultProps 0 typing " "%char eq_refl)
    as [_ H].
  apply H.
Defined.

(** X2. With a selector of one code unit, a second selection right after
    a first one does not replace the first completion: it appends to the
    text of the first selection its own completion and the selector. *)
Theorem selectAutocompletion_twice (props : SearchInputProps) (i j : Z) (st : State)
    (c : Ascii.ascii) :
  selector props = String c "" →
  let st1 := exec (selectAutocompletion props i) st in
  value (exec (selectAutocompletion props j) st1)
  = value st1 +:+ or_empty (completionAt (completions st) j) +:+ selector props.
Proof.
  intros Hsep st1.
  assert (lastWordOfValue props st1 = Some "") as Hlast.
  { eapply lastWordOfValue_after_selector; [done|].
    subst st1. rewrite selectAutocompletion_value. by rewrite Hsep at 3. }
  rewrite lastWordOfValue_last in Hlast.
  destruct (selectAutocompletion_text props j st1)
    as [(before & token & Htoken & Hvalue & Hnew)|(Hempty & _)].
  - rewrite Hlast in Htoken. injection Htoken as <-.
    rewrite sapp_nil_r in Hvalue. rewrite Hnew, Hvalue.
    subst st1. by rewrite selectAutocompletion_completions.
  - by rewrite Hsep in Hempty.
Qed.

Lemma selectAutocompletion_twice_witness :
  selector defaultProps = " "
  ∧ value (exec (selectAutocompletion defaultProps 1)
             (exec (selectAutocompletion defaultProps 0) typing))
    = "foo bar baz ".
Proof.
  split; [reflexivity|].
  rewrite (selectAutocompletion_twice defaultProps 0 1 typing " "%char eq_refl).
  reflexivity.
Defined.

(** X3. Selecting a completion that is the last word as it is typed
    changes the text only by the selector it appends, whatever the
    selector. *)
Theorem selectAutocompletion_same_word (props : SearchInputProps) (i : Z) (st : State)
    (w : string) :
  lastWordOfValue props st = Some w →
  completionAt (completions st) i = Some w →
  value (exec (selectAutocompletion props i) st) = value st +:+ selector props.
Proof.
  rewrite lastWordOfValue_last. intros Hlast Hc.
  destruct (selectAutocompletion_text props i st)
    as [(before & token & Htoken & Hvalue & Hnew)|(Hsep & Hv & _)].
  - rewrite Hlast in Htoken. injection Htoken as <-.
    rewrite Hnew, Hvalue, Hc. cbn [or_empty default]. by rewrite sapp_assoc.
  - rewrite Hsep, Hv in Hlast. done.
Qed.

Lemma selectAutocompletion_same_word_witness :
  let st := exec (handleOnChange (Some "foo bar")) typing in
  lastWordOfValue defaultProps st = Some "bar"
  ∧ completionAt (completions st) 0 = Some "bar"
  ∧ value (exec (selectAutocompletion defaultProps 0) st) = "foo bar" +:+ " ".
Proof.
  cbv zeta. split; [reflexivity|]. split; [reflexivity|].
  exact (selectAutocompletion_same_word defaultProps 0
           (exec (handleOnChange (Some "foo bar")) typing) "bar" eq_refl eq_refl).
Defined.

(** *** The list of completions *)

(** X4. Rendering the list of completions throws exactly when there are
    completions to render while the text and the selector are both empty
    (the last word is then [undefined], and its [length] is read); with a
    non-empty selector, or without completions, it never does. *)
Theorem autocompletionsList_throws (props : SearchInputProps) (st : State) :
  autocompletionsList props st = None
  ↔ selector props = "" ∧ value st = "" ∧ completions st ≠ JArr [].
Proof.
  unfold autocompletionsList. destruct (completions_array st) as [a ->].
  destruct (lastWordOfValue_tail props st) as (Hnone & _ & _).
  destruct a as [|x a].
  - split; [done|]. by intros (_ & _ & ?).
  - destruct (lastWordOfValue props st) as [w|].
    + split; [done|]. intros (Hsep & Hv & _). by destruct Hnone as [_ Hn]; specialize (Hn (conj Hsep Hv)).
    + split; [|done]. intros _. destruct Hnone as [Hn _]. destruct (Hn eq_refl). done.
Qed.

(** X5. For a completion that starts with the last word of the text, the
    term shown in the list (the text in bold, then the suffix) followed by
    the selector is the very text that selecting this entry puts in the
    input. *)
Theorem autocompletionsList_shows_selection (props : SearchInputProps) (st : State)
    (a : list string) (i : nat) (w rest : string) :
  completions st = JArr a →
  lastWordOfValue props st = Some w →
  a !! i = Some (w +:+ rest) →
  ∃ items entry,
    autocompletionsList props st = Some items
    ∧ items !! i = Some entry
    ∧ position entry = i
    ∧ suffix entry = rest
    ∧ strong entry +:+ suffix entry +:+ selector props
      = value (exec (setupHandleAutocompletionOnClick props (Z.of_nat (position entry))) st).
Proof.
  intros Ha Hw Hi. unfold autocompletionsList. rewrite Ha, Hw.
  destruct a as [|x a]; [done|].
  eexists _, _. split; [done|]. rewrite list_lookup_imap, Hi. cbn [fmap option_fmap option_map].
  split; [done|]. cbn [position suffix strong]. rewrite sdrop_app.
  split_and!; [done..|].
  unfold setupHandleAutocompletionOnClick.
  rewrite lastWordOfValue_last in Hw.
  destruct (selectAutocompletion_text props (Z.of_nat i) st)
    as [(before & token & Htoken & Hvalue & Hnew)|(Hsep & Hv & _)].
  - rewrite Hw in Htoken. injection Htoken as <-.
    rewrite Hnew, Ha. unfold completionAt, index.
    destruct (Z.ltb_spec (Z.of_nat i) 0) as [|_]; [lia|].
    rewrite Nat2Z.id, Hi. cbn [or_empty default from_option id].
    by rewrite Hvalue, !sapp_assoc.
  - rewrite Hsep, Hv in Hw. done.
Qed.

Lemma autocompletionsList_shows_selection_witness :
  completions typing = JArr ["bar"; "baz"]
  ∧ lastWordOfValue defaultProps typing = Some "b"
  ∧ ∃ items entry,
      autocompletionsList defaultProps typing = Some items
      ∧ items !! 1%nat = Some entry
      ∧ suffix entry = "az".
Proof.
  split; [reflexivity|]. split; [reflexivity|].
  destruct (autocompletionsList_shows_selection defaultProps typing ["bar"; "baz"] 1 "b" "az"
              eq_refl eq_refl eq_refl) as (items & entry & H1 & H2 & _ & H3 & _).
  eauto.
Defined.

Lemma autocompletionsList_throws_witness :
  let props := {| splitSearchQuerySelector := Some "" |} in
  let st := exec (handleOnChange None) typing in
  autocompletionsList props st = None
  ∧ autocompletionsList defaultProps st
    = Some [ {| position := 0; strong := ""; suffix := "bar" |};
             {| position := 1; strong := ""; suffix := "baz" |} ].
Proof.
  cbv zeta. split; [|reflexivity].
  apply (autocompletionsList_throws {| splitSearchQuerySelector := Some "" |}
           (exec (handleOnChange None) typing)).
  split; [reflexivity|]. split; [reflexivity|]. discriminate.
Defined.

(** *** What one event leaves of the state *)

Lemma handleOnChange_state (target : option string) (st : State) :
  exec (handleOnChange target) st
  = {| searchParameters := searchParameters st;
       searchResponse := searchResponse st;
       autocompletionResults := autocompletionResults st;
       value := match target with Some v => v | None => "" end;
       skipFetchAutoCompletions := skipFetchAutoCompletions st;
       inputField := inputField st;
       calls := calls st |}.
Proof. reflexivity. Qed.

Lemma selectSuggestion_idle (st : State) :
  hasSuggestedQuery st = false →
  exec selectSuggestion st
  = {| searchParameters := searchParameters st;
       searchResponse := searchResponse st;
       autocompletionResults := autocompletionResults st;
       value := value st;
       skipFetchAutoCompletions := skipFetchAutoCompletions st;
       inputField := inputField st;
       calls := calls st ++ [PreventDefault] |}.
Proof.
  unfold hasSuggestedQuery. run_handler.
  destruct (suggestedQuery st) as [q|]; [intros ->|]; done.
Qed.

(** No event changes what the context provides besides the search
    parameters, and only the debounce effect changes those. *)
Lemma handle_context (props : SearchInputProps) (e : event) (st : State) :
  searchResponse (exec (handle props e) st) = searchResponse st
  ∧ autocompletionResults (exec (handle props e) st) = autocompletionResults st
  ∧ inputField (exec (handle props e) st) = inputField st
  ∧ searchParameters (exec (handle props e) st)
    = match e with
      | DebouncedTerm term => debounceUpdater term (searchParameters st)
      | _ => searchParameters st
      end
  ∧ (isDebouncedTerm e = true → value (exec (handle props e) st) = value st).
Proof.
  destruct e as [target|key|i|i key| |term]; cbn [handle isDebouncedTerm].
  - by rewrite handleOnChange_state.
  - unfold handleOnKeyUp. destruct (String.eqb key "Enter"); [|done].
    change (exec _ st) with (exec (searchAndBlur (value st)) st).
    by rewrite searchAndBlur_calls.
  - unfold setupHandleAutocompletionOnClick. by rewrite selectAutocompletion_state.
  - unfold setupHandleAutocompletionKeyUp. destruct (String.eqb key "Enter"); [|done].
    by rewrite selectAutocompletion_state.
  - destruct (hasSuggestedQuery st) eqn:Hs.
    + unfold hasSuggestedQuery in Hs. destruct (suggestedQuery st) as [q|] eqn:Hq; [|done].
      apply truthy_JStr in Hs. by rewrite (selectSuggestion_state st q).
    + by rewrite selectSuggestion_idle.
  - by rewrite debounceEffect_state.
Qed.

Lemma handle_hasSuggestedQuery (props : SearchInputProps) (e : event) (st : State) :
  hasSuggestedQuery (exec (handle props e) st) = hasSuggestedQuery st.
Proof.
  unfold hasSuggestedQuery, suggestedQuery.
  by destruct (handle_context props e st) as (-> & _).
Qed.

Lemma debouncedTerms_cons (e : event) (es : list event) :
  debouncedTerms (e :: es)
  = match e with DebouncedTerm t => t :: debouncedTerms es | _ => debouncedTerms es end.
Proof. by destruct e. Qed.

Lemma run_searchParameters (props : SearchInputProps) (es : list event) (st : State) :
  searchParameters (exec (run props es) st)
  = match last (debouncedTerms es) with
    | Some t => <["natural_language_query" := JStr t]> (searchParameters st)
    | None => searchParameters st
    end.
Proof.
  revert st. induction es as [|e es IH]; intros st; [done|].
  rewrite exec_run_cons, IH, debouncedTerms_cons.
  destruct (handle_context props e st) as (_ & _ & _ & -> & _).
  destruct e as [| | | | |t0]; try done.
  rewrite last_cons. unfold debounceUpdater.
  destruct (last (debouncedTerms es)); [apply insert_insert_eq | done].
Qed.

(** X10. Whatever happens to the input, of the shared search parameters
    only [natural_language_query] changes: after any sequence of events
    they are the parameters before it with the last debounced term as
    query, or the very same parameters when the debounce effect did not
    run. *)
Theorem run_changes_only_query (props : SearchInputProps) (es : list event) (st : State) :
  searchParameters (exec (run props es) st)
  = match last (debouncedTerms es) with
    | Some t => <["natural_language_query" := JStr t]> (searchParameters st)
    | None => searchParameters st
    end
  ∧ ∀ k, k ≠ "natural_language_query" →
      searchParameters (exec (run props es) st) !! k = searchParameters st !! k.
Proof.
  rewrite run_searchParameters. split; [done|]. intros k Hk.
  destruct (last (debouncedTerms es)); [by rewrite lookup_insert_ne | done].
Qed.

Lemma run_changes_only_query_witness :
  "offset" ≠ "natural_language_query"
  ∧ searchParameters (exec (run defaultProps
       [DebouncedTerm "foo b"; KeyUp "Enter"; SuggestionClick; DebouncedTerm "food"]) typing)
      !! "offset" = Some (JNum 20).
Proof.
  split; [discriminate|].
  destruct (run_changes_only_query defaultProps
              [DebouncedTerm "foo b"; KeyUp "Enter"; SuggestionClick; DebouncedTerm "food"]
              typing) as [_ H].
  rewrite H by discriminate. reflexivity.
Defined.

(** *** Fetches over sequences of events *)

Lemma handle_fetched (props : SearchInputProps) (e : event) (st : State) :
  fetches (calls (exec (handle props e) st))
  = fetches (calls st)
    ++ match e with
       | DebouncedTerm term => if skipFetchAutoCompletions st then [] else [term]
       | _ => []
       end.
Proof.
  destruct (handle_calls props e st) as (new & -> & _ & <-). apply omap_app.
Qed.

(** The flag after one event. *)
Lemma handle_flag (props : SearchInputProps) (e : event) (st : State) :
  skipFetchAutoCompletions (exec (handle props e) st)
  = match e with
    | DebouncedTerm _ => false
    | SuggestionClick => hasSuggestedQuery st || skipFetchAutoCompletions st
    | _ => skipFetchAutoCompletions st
    end.
Proof.
  destruct e as [target|key|i|i key| |term].
  - by destruct (handle_skip props (Change target) st eq_refl) as [_ ->].
  - by destruct (handle_skip props (KeyUp key) st eq_refl) as [_ ->].
  - by destruct (handle_skip props (AutocompletionClick i) st eq_refl) as [_ ->].
  - by destruct (handle_skip props (AutocompletionKeyUp i key) st eq_refl) as [_ ->].
  - cbn [handle]. destruct (hasSuggestedQuery st) eqn:Hs.
    + unfold hasSuggestedQuery in Hs. destruct (suggestedQuery st) as [q|] eqn:Hq; [|done].
      apply truthy_JStr in Hs. by rewrite (selectSuggestion_state st q).
    + by rewrite selectSuggestion_idle.
  - cbn [handle]. by rewrite debounceEffect_state.
Qed.

(** X8. As long as the flag is clear and the spelling suggestion is not
    clicked, or there is no suggestion to click, every run of the debounce
    effect fetches: the terms fetched over a sequence of events are the
    debounced terms, all of them, in their order, and the flag is still
    clear at the end. *)
Theorem run_fetches_every_term (props : SearchInputProps) (es : list event) (st : State) :
  skipFetchAutoCompletions st = false →
  hasSuggestedQuery st = false ∨ suggestionClicks es = 0 →
  fetches (calls (exec (run props es) st)) = fetches (calls st) ++ debouncedTerms es
  ∧ skipFetchAutoCompletions (exec (run props es) st) = false.
Proof.
  revert st. induction es as [|e es IH]; intros st Hflag Hclicks.
  - by rewrite app_nil_r.
  - rewrite exec_run_cons.
    assert (skipFetchAutoCompletions (exec (handle props e) st) = false) as Hflag1.
    { rewrite handle_flag. destruct e; try done.
      destruct Hclicks as [->|Hc]; [by rewrite Hflag|].
      unfold suggestionClicks in Hc. rewrite filter_cons_True in Hc by done. done. }
    destruct (IH (exec (handle props e) st) Hflag1) as [-> ->].
    { rewrite handle_hasSuggestedQuery. destruct Hclicks as [|Hc]; [by left|right].
      unfold suggestionClicks in *. rewrite filter_cons in Hc.
      destruct (decide (isSuggestionClick e = true)); [done | exact Hc]. }
    split; [|done]. rewrite handle_fetched, debouncedTerms_cons, Hflag, <- app_assoc.
    by destruct e.
Qed.

Lemma run_fetches_every_term_witness :
  let m := mount (searchParameters typing) None (autocompletionResults typing) true in
  let es := [Change (Some "f"); DebouncedTerm "f"; SuggestionClick; Change (Some "fo");
             DebouncedTerm "fo"] in
  skipFetchAutoCompletions m = false
  ∧ hasSuggestedQuery m = false
  ∧ fetches (calls (exec (run defaultProps es) m)) = ["f"; "fo"].
Proof.
  cbv zeta. split; [reflexivity|]. split; [reflexivity|].
  destruct (run_fetches_every_term defaultProps
              [Change (Some "f"); DebouncedTerm "f"; SuggestionClick; Change (Some "fo");
               DebouncedTerm "fo"]
              (mount (searchParameters typing) None (autocompletionResults typing) true)
              eq_refl (or_introl eq_refl)) as [H _].
  exact H.
Defined.

(** X9. Over any sequence of events the terms fetched are debounced terms,
    in their order, and a debounced term goes unfetched at most once for
    each click on the spelling suggestion (and once more when the flag was
    set to begin with). *)
Theorem run_skips_at_most_one_fetch_per_click (props : SearchInputProps)
    (es : list event) (st : State) :
  ∃ fetched,
    fetches (calls (exec (run props es) st)) = fetches (calls st) ++ fetched
    ∧ fetched `sublist_of` debouncedTerms es
    ∧ (length (debouncedTerms es)
       ≤ length fetched + suggestionClicks es
         + (if skipFetchAutoCompletions st then 1 else 0))%nat.
Proof.
  revert st. induction es as [|e es IH]; intros st.
  - exists []. rewrite app_nil_r. split_and!; [done..|cbn; lia].
  - rewrite exec_run_cons.
    destruct (IH (exec (handle props e) st)) as (fetched & -> & Hsub & Hlen).
    rewrite handle_fetched, <- app_assoc. rewrite handle_flag in Hlen.
    rewrite debouncedTerms_cons. unfold suggestionClicks in *. rewrite filter_cons.
    eexists. split; [done|].
    destruct e as [target|key|i|i key| |term]; cbn [isSuggestionClick app];
      try (split; [done|];
           destruct (decide (false = true)); [done|]; exact Hlen).
    + destruct (decide (true = true)); [|done]. split; [done|]. cbn [length].
      destruct (hasSuggestedQuery st), (skipFetchAutoCompletions st); cbn in *; lia.
    + destruct (decide (false = true)); [done|].
      destruct (skipFetchAutoCompletions st); cbn [app length].
      * split; [by apply sublist_cons | lia].
      * split; [by apply sublist_skip | lia].
Qed.

(** *** Searches over sequences of events *)

Lemma handle_searched (props : SearchInputProps) (e : event) (st : State) :
  ∃ submitted,
    searches (calls (exec (handle props e) st)) = searches (calls st) ++ submitted
    ∧ length submitted
      = (if isEnter e then 1 else 0)
        + (if isSuggestionClick e && hasSuggestedQuery st then 1 else 0)
    ∧ ∀ p, p ∈ submitted →
        ∃ text, p = prepareFreshSearchParameters (searchParameters st) text.
Proof.
  destruct (handle_calls props e st) as (new & -> & Hs & _).
  exists (searches new). split; [apply omap_app|]. rewrite Hs.
  unfold hasSuggestedQuery.
  destruct e as [target|key|i|i key| |term]; cbn [isEnter isSuggestionClick andb];
    try (split; [done|]; by intros p ?%elem_of_nil).
  - destruct (String.eqb key "Enter").
    + split; [done|]. intros p ->%list_elem_of_singleton. eauto.
    + split; [done|]. by intros p ?%elem_of_nil.
  - destruct (suggestedQuery st) as [q|]; [|split; [done|]; by intros p ?%elem_of_nil].
    destruct (truthy (JStr q)).
    + split; [done|]. intros p ->%list_elem_of_singleton. eauto.
    + split; [done|]. by intros p ?%elem_of_nil.
Qed.

Lemma prepareFresh_query_free (sp sp' : QueryParams) (text : string) :
  (∀ k, k ≠ "natural_language_query" → sp' !! k = sp !! k) →
  prepareFreshSearchParameters sp' text = prepareFreshSearchParameters sp text.
Proof.
  intros Hframe. apply map_eq. intros k. unfold prepareFreshSearchParameters.
  destruct (decide (k = "filter")) as [->|]; [by rewrite !lookup_insert_eq|].
  rewrite !(lookup_insert_ne _ "filter") by done.
  destruct (decide (k = "offset")) as [->|]; [by rewrite !lookup_insert_eq|].
  rewrite !(lookup_insert_ne _ "offset") by done.
  destruct (decide (k = "natural_language_query")) as [->|]; [by rewrite !lookup_insert_eq|].
  rewrite !lookup_insert_ne by done. by apply Hframe.
Qed.

(** X11. Over any sequence of events the input performs one search for
    each Enter in the input and, when there is a suggested query, one for
    each click on the suggestion, and no other. Each of these searches
    starts from the first result with no filter, and has every field
    other than these two and the query as the search parameters had it
    before the sequence. *)
Theorem run_searches (props : SearchInputProps) (es : list event) (st : State) :
  ∃ submitted,
    searches (calls (exec (run props es) st)) = searches (calls st) ++ submitted
    ∧ length submitted
      = enters es + (if hasSuggestedQuery st then suggestionClicks es else 0)
    ∧ ∀ p, p ∈ submitted →
        p !! "offset" = Some (JNum 0)
        ∧ p !! "filter" = Some (JStr "")
        ∧ ∀ k, k ≠ "offset" → k ≠ "filter" → k ≠ "natural_language_query" →
            p !! k = searchParameters st !! k.
Proof.
  revert st. induction es as [|e es IH]; intros st.
  - exists []. rewrite app_nil_r. split_and!; [done | by destruct (hasSuggestedQuery st) |].
    by intros p ?%elem_of_nil.
  - rewrite exec_run_cons.
    destruct (IH (exec (handle props e) st)) as (later & -> & Hlen & Hlater).
    destruct (handle_searched props e st) as (now & -> & Hnow & Hfresh).
    exists (now ++ later). rewrite <- app_assoc. split; [done|]. split.
    + rewrite length_app, Hlen, Hnow, handle_hasSuggestedQuery.
      unfold enters, suggestionClicks. rewrite !filter_cons.
      destruct (isEnter e), (isSuggestionClick e), (hasSuggestedQuery st);
        repeat case_decide; try done; cbn; lia.
    + intros p [Hp|Hp]%elem_of_app.
      * destruct (Hfresh p Hp) as [text ->].
        destruct (prepareFresh_lookup (searchParameters st) text) as (? & ? & _ & ?).
        done.
      * destruct (Hlater p Hp) as (? & ? & Hframe). split_and!; [done..|].
        intros k ???. rewrite Hframe by done.
        destruct (handle_context props e st) as (_ & _ & _ & -> & _).
        destruct e; try done. unfold debounceUpdater. by rewrite lookup_insert_ne.
Qed.

Lemma run_searches_witness :
  ∃ submitted,
    searches (calls (exec (run defaultProps
       [KeyUp "a"; KeyUp "Enter"; DebouncedTerm "foo b"; SuggestionClick]) typing))
    = submitted
    ∧ length submitted = 2
    ∧ ∀ p, p ∈ submitted → p !! "offset" = Some (JNum 0).
Proof.
  destruct (run_searches defaultProps
              [KeyUp "a"; KeyUp "Enter"; DebouncedTerm "foo b"; SuggestionClick] typing)
    as (submitted & Hs & Hlen & Hall).
  exists submitted. split; [exact Hs|]. split; [exact Hlen|].
  intros p Hp. destruct (Hall p Hp) as [H _]. exact H.
Defined.

(** X12. Enter submits the text that is in the input at that moment
    together with the search parameters as they were at the start, except
    for offset, filter and query: whatever happened before (typing,
    selections, runs of the debounce effect that wrote another query into
    the shared parameters) does not show in the search. *)
Theorem enter_after_any_events (props : SearchInputProps) (es : list event) (st : State) :
  searches (calls (exec (run props (es ++ [KeyUp "Enter"])) st))
  = searches (calls (exec (run props es) st))
    ++ [prepareFreshSearchParameters (searchParameters st) (value (exec (run props es) st))].
Proof.
  rewrite exec_run_app, exec_run_cons. cbn [run handle]. unfold exec at 1. cbn [mret M_ret snd].
  rewrite enter_calls. unfold searches at 1. rewrite omap_app. f_equal.
  assert (prepareFreshSearchParameters (searchParameters (exec (run props es) st))
            (value (exec (run props es) st))
          = prepareFreshSearchParameters (searchParameters st)
              (value (exec (run props es) st))) as <-.
  { apply prepareFresh_query_free. intros k Hk. rewrite run_searchParameters.
    destruct (last (debouncedTerms es)); [by rewrite lookup_insert_ne | done]. }
  by destruct (inputField (exec (run props es) st)).
Qed.

(** X13. A click on the spelling suggestion when there is none (no search
    response, no suggested query in it, or the empty string as suggested
    query) does nothing but [preventDefault]: no search, the text and the
    flag as they were. *)
Theorem selectSuggestion_without_suggestion (st : State) :
  searchResponse st = None
  ∨ (∃ r, searchResponse st = Some r
          ∧ (suggested_query r = None ∨ suggested_query r = Some "")) →
  exec selectSuggestion st
  = {| searchParameters := searchParameters st;
       searchResponse := searchResponse st;
       autocompletionResults := autocompletionResults st;
       value := value st;
       skipFetchAutoCompletions := skipFetchAutoCompletions st;
       inputField := inputField st;
       calls := calls st ++ [PreventDefault] |}.
Proof.
  intros H. apply selectSuggestion_idle. unfold hasSuggestedQuery, suggestedQuery.
  destruct H as [->|(r & -> & [Hq|Hq])]; cbn; by rewrite ?Hq.
Qed.

Lemma selectSuggestion_without_suggestion_witness :
  let st := mount ∅ (Some {| suggested_query := Some "" |}) None true in
  searchResponse st = Some {| suggested_query := Some "" |}
  ∧ calls (exec selectSuggestion st) = [PreventDefault]
  ∧ skipFetchAutoCompletions (exec selectSuggestion st) = false.
Proof.
  cbv zeta. split; [reflexivity|].
  rewrite (selectSuggestion_without_suggestion
             (mount ∅ (Some {| suggested_query := Some "" |}) None true)).
  - split; reflexivity.
  - right. eexists. split; [reflexivity|]. by right.
Defined.

(** *** Mounting, and the other effect on the search parameters *)

(** X14. The first run of the debounce effect, with the text the input
    was mounted with, gives the search parameters back as they were when
    they hold a query string; when they hold none it adds the empty
    query and changes nothing else. *)
Theorem mount_keeps_query (searchParameters : QueryParams)
    (searchResponse : option QueryResponse) (autocompletionResults : option Completions)
    (inputField : bool) :
  let m := mount searchParameters searchResponse autocompletionResults inputField in
  let m' := exec (debounceEffect (value m)) m in
  calls m' = [FetchAutocompletions (value m)]
  ∧ (∀ s, searchParameters !! "natural_language_query" = Some (JStr s) →
       value m = s ∧ SearchInput.searchParameters m' = searchParameters)
  ∧ (searchParameters !! "natural_language_query" = None →
       value m = ""
       ∧ SearchInput.searchParameters m'
         = <["natural_language_query" := JStr ""]> searchParameters).
Proof.
  intros m m'. subst m' m. rewrite debounceEffect_state.
  cbn [calls SearchInput.searchParameters mount skipFetchAutoCompletions value app].
  unfold debounceUpdater, initialValue. split_and!; [done| |].
  - intros s Hs. rewrite Hs. split; [done|]. by apply insert_id.
  - by intros ->.
Qed.

Lemma mount_keeps_query_witness :
  searchParameters typing !! "natural_language_query" = Some (JStr "foo")
  ∧ (let m := mount (searchParameters typing) None None true in
     value m = "foo"
     ∧ searchParameters (exec (debounceEffect (value m)) m) = searchParameters typing).
Proof.
  split; [apply lookup_insert_eq|].
  destruct (mount_keeps_query (searchParameters typing) None None true) as (_ & H & _).
  apply H. apply lookup_insert_eq.
Defined.

(** X15. The effect on [spellingSuggestions] writes the prop as a boolean,
    [false] when the prop is left out. It and the debounce effect give
    the same parameters in either order, and a search submitted after it
    carries the flag it wrote. *)
Theorem spellingUpdater_composes (spellingSuggestions : option bool) (term text : string)
    (searchParameters : QueryParams) :
  spellingUpdater spellingSuggestions (debounceUpdater term searchParameters)
  = debounceUpdater term (spellingUpdater spellingSuggestions searchParameters)
  ∧ prepareFreshSearchParameters (spellingUpdater spellingSuggestions searchParameters) text
      !! "spelling_suggestions"
    = Some (JBool (default false spellingSuggestions))
  ∧ spellingUpdater None searchParameters !! "spelling_suggestions" = Some (JBool false).
Proof.
  unfold spellingUpdater, debounceUpdater. split_and!.
  - by apply insert_insert_ne.
  - destruct (prepareFresh_lookup
                (<["spelling_suggestions" := JBool (default false spellingSuggestions)]>
                   searchParameters) text) as (_ & _ & _ & H).
    rewrite H by done. apply lookup_insert_eq.
  - apply lookup_insert_eq.
Qed.

End SearchInputRenderFacts.
